(** * lodash-up: a shallow embedding of [src/index.js]

    The mixins of lodash-up are embedded as Rocq functions over a small model
    of the JavaScript values they receive.

    Conventions of the model.
    - A JavaScript string is a [string]; each character stands for one code
      unit below 256 (ASCII and the Latin-1 supplement).
    - A JavaScript number is an integer [Z] that an IEEE double holds
      exactly ([VNum n] stands for a number only then).  Every integer up
      to [2^53] in magnitude is one; arithmetic rounds to the nearest
      double ([round_double]), and a number prints as [Number::toString]
      does, in exponent notation from [10^21].  [NaN], where the program
      can produce it, is the [None] of an [option Z].
    - Objects and arrays are finite trees of own properties, without
      sharing between objects, so the value returned by a function that
      mutates its argument is the mutated argument.  The standard
      prototypes are taken as the language defines them: what a value
      inherits from them is a function or the accessor [__proto__], which
      the model does not have, so reading an inherited name, and writing
      [__proto__], leaves the model.
    - A call either returns, throws, or leaves the modelled fragment of the
      language (see [result]). *)

From Stdlib Require Import ZArith List String Ascii Bool Lia.
Import ListNotations.

Open Scope string_scope.
Open Scope Z_scope.

(* ------------------------------------------------------------------ *)
(** ** Results of calls *)

Inductive exn_class : Type :=
| TypeError
| RangeError
| SyntaxError
| Error.

(** [Throw c None] is an exception raised by the language runtime (its
    message is engine specific); [Throw c (Some m)] one raised by a [throw]
    statement of the program with message [m]. *)
Inductive result (A : Type) : Type :=
| Ok (a : A)
| Throw (c : exn_class) (msg : option string)
| Unmodelled
| OutOfFuel.

Arguments Ok {A} a.
Arguments Throw {A} c msg.
Arguments Unmodelled {A}.
Arguments OutOfFuel {A}.

Definition bind {A B : Type} (r : result A) (k : A -> result B) : result B :=
  match r with
  | Ok a => k a
  | Throw c m => Throw c m
  | Unmodelled => Unmodelled
  | OutOfFuel => OutOfFuel
  end.

Notation "x <- r ;; k" := (bind r (fun x => k))
  (at level 61, r at next level, right associativity).

(* ------------------------------------------------------------------ *)
(** ** Characters and strings *)

Definition code (c : ascii) : Z := Z.of_N (N_of_ascii c).

Definition in_range (lo hi : Z) (c : ascii) : bool :=
  (lo <=? code c) && (code c <=? hi).

Definition is_digit (c : ascii) : bool := in_range 48 57 c.
Definition is_lower (c : ascii) : bool := in_range 97 122 c.
Definition is_upper (c : ascii) : bool := in_range 65 90 c.

(** [\w] of a regular expression: [A-Za-z0-9_]. *)
Definition is_word (c : ascii) : bool :=
  is_digit c || is_lower c || is_upper c || (code c =? 95).

(** White space and line terminators skipped by [parseInt]. *)
Definition is_space (c : ascii) : bool :=
  in_range 9 13 c || (code c =? 32) || (code c =? 160).

Definition char_of_code (n : Z) : ascii := ascii_of_N (Z.to_N n).

Definition str1 (c : ascii) : string := String c EmptyString.

(** [String.prototype.toLowerCase] on code units below 256, each of which
    has one code unit below 256 for its lowercase. *)
Definition lower_char (c : ascii) : ascii :=
  if is_upper c then char_of_code (code c + 32)
  else if in_range 192 222 c && negb (code c =? 215)
       then char_of_code (code c + 32)
       else c.

Fixpoint toLowerCase (s : string) : string :=
  match s with
  | EmptyString => EmptyString
  | String c s' => String (lower_char c) (toLowerCase s')
  end.

Definition len (s : string) : Z := Z.of_nat (String.length s).

Fixpoint take (n : nat) (s : string) : string :=
  match n, s with
  | S n', String c s' => String c (take n' s')
  | _, _ => EmptyString
  end.

Fixpoint drop (n : nat) (s : string) : string :=
  match n, s with
  | S n', String _ s' => drop n' s'
  | _, _ => s
  end.

(** [s1] is a prefix of [s2]. *)
Fixpoint starts (s1 s2 : string) : bool :=
  match s1, s2 with
  | EmptyString, _ => true
  | String c1 r1, String c2 r2 => Ascii.eqb c1 c2 && starts r1 r2
  | String _ _, EmptyString => false
  end.

(** [str.slice(from, to)] for integer arguments. *)
Definition slice (s : string) (from to : Z) : string :=
  let l := len s in
  let a := if from <? 0 then Z.max (l + from) 0 else Z.min from l in
  let b := if to <? 0 then Z.max (l + to) 0 else Z.min to l in
  take (Z.to_nat (b - a)) (drop (Z.to_nat a) s).

(** [str.substr(start)] and [str.substr(start, length)]. *)
Definition substr_from (s : string) (start : Z) : string :=
  let l := len s in
  let a := if start <? 0 then Z.max (l + start) 0 else Z.min start l in
  drop (Z.to_nat a) s.

Definition substr (s : string) (start length : Z) : string :=
  let l := len s in
  let a := if start <? 0 then Z.max (l + start) 0 else Z.min start l in
  let n := Z.min (Z.max length 0) (l - a) in
  take (Z.to_nat n) (drop (Z.to_nat a) s).

(** [parts.join(sep)]. *)
Fixpoint join (sep : string) (parts : list string) : string :=
  match parts with
  | [] => ""
  | [p] => p
  | p :: rest => p ++ sep ++ join sep rest
  end.

(** [str.split(sep)] for a one-character separator: [cur] is the part
    being read. *)
Fixpoint split_at (sep : ascii) (s : string) (cur : string) : list string :=
  match s with
  | EmptyString => [cur]
  | String c s' =>
      if Ascii.eqb c sep then cur :: split_at sep s' ""
      else split_at sep s' (cur ++ str1 c)
  end.

Definition split (sep : ascii) (s : string) : list string := split_at sep s "".

(* ------------------------------------------------------------------ *)
(** ** Numbers and their decimal notation *)

Definition digit_char (d : Z) : ascii := char_of_code (48 + d).
Definition digit_val (c : ascii) : Z := code c - 48.

Fixpoint decimal_digits (fuel : nat) (n : Z) (acc : string) : string :=
  match fuel with
  | O => acc
  | S fuel' =>
      let acc' := String (digit_char (n mod 10)) acc in
      if n <? 10 then acc' else decimal_digits fuel' (n / 10) acc'
  end.

(** The decimal notation of [n >= 0]; a number has no more decimal digits
    than binary ones. *)
Definition decimal (n : Z) : string :=
  decimal_digits (S (Z.to_nat (Z.log2 n))) n "".

(** Every integer up to [2^53] in magnitude is a double. *)
Definition two53 : Z := 9007199254740992.

(** The double nearest to the integer [x], a tie going to the even
    significand (of 53 bits).  Overflow is not modelled: the program
    rounds no integer of [2^1024] or more. *)
Definition round_double (x : Z) : Z :=
  let a := Z.abs x in
  if a <=? two53 then x
  else
    let e := Z.log2 a - 52 in
    let q := a / 2 ^ e in
    let r := a mod 2 ^ e in
    let half := 2 ^ (e - 1) in
    let q' := if r <? half then q
              else if half <? r then q + 1
              else if Z.even q then q else q + 1 in
    Z.sgn x * (q' * 2 ^ e).

(** The arithmetic of doubles on integers: the exact result, rounded. *)
Definition add (x y : Z) : Z := round_double (x + y).
Definition sub (x y : Z) : Z := round_double (x - y).
Definition mul (x y : Z) : Z := round_double (x * y).

(** [Number::toString] looks for the least number [k] of digits [s] such
    that [s * 10^(n - k)] rounds to the number [a]; [a] itself has [n]
    digits.  With [k] digits the candidates are the [k] leading digits of
    [a] and their successor.  Of two that do, the language recommends the
    nearer to [a], and the even one when they are as near, which is what
    engines print.  The result is [(s, e)] for [s * 10^e]. *)
Definition candidate (a n k : Z) : option (Z * Z) :=
  if n <=? k then Some (a, 0)
  else
    let p := 10 ^ (n - k) in
    let lo := a / p in
    let hi := lo + 1 in
    let rounds (s : Z) : bool := round_double (s * p) =? a in
    let pick (s : Z) : Z * Z := if s =? 10 ^ k then (1, n) else (s, n - k) in
    match rounds lo, rounds hi with
    | true, true =>
        Some (pick (if a - lo * p <? hi * p - a then lo
                    else if hi * p - a <? a - lo * p then hi
                    else if Z.even lo then lo else hi))
    | true, false => Some (pick lo)
    | false, true => Some (pick hi)
    | false, false => None
    end.

Fixpoint shortest (a n : Z) (ks : list Z) : Z * Z :=
  match ks with
  | [] => (a, 0)
  | k :: ks' =>
      match candidate a n k with
      | Some r => r
      | None => shortest a n ks'
      end
  end.

Fixpoint zeros (n : nat) : string :=
  match n with
  | O => EmptyString
  | S n' => String "0" (zeros n')
  end.

(** [Number::toString] on a positive integer: its decimal notation up to
    [2^53]; above, the shortest digits that read back as the number,
    followed by zeros below [10^21] and in exponent notation from there. *)
Definition magnitude (a : Z) : string :=
  if a <=? two53 then decimal a
  else
    let n := Z.of_nat (String.length (decimal a)) in
    let (s, e) := shortest a n (map Z.of_nat (seq 1 17)) in
    let d := decimal s in
    let n := Z.of_nat (String.length d) + e in
    if n <=? 21 then d ++ zeros (Z.to_nat e)
    else match d with
         | EmptyString => EmptyString
         | String c EmptyString => String c ("e+" ++ decimal (n - 1))
         | String c r => String c ("." ++ r ++ "e+" ++ decimal (n - 1))
         end.

(** [Number::toString] on integers. *)
Definition number_to_string (n : Z) : string :=
  if n <? 0 then "-" ++ magnitude (- n) else magnitude n.

(** The mathematical value of the longest prefix of decimal digits; [acc]
    is [None] until a digit has been read.  [numeral] below makes a
    number of it. *)
Fixpoint parse_digits (s : string) (acc : option Z) : option Z :=
  match s with
  | String c s' =>
      if is_digit c
      then parse_digits s' (Some (match acc with
                                  | Some a => a * 10 + digit_val c
                                  | None => digit_val c
                                  end))
      else acc
  | EmptyString => acc
  end.

Fixpoint skip_spaces (s : string) : string :=
  match s with
  | String c s' => if is_space c then skip_spaces s' else s
  | EmptyString => s
  end.

(** The number for a decimal numeral of value [n]: the nearest double.
    With more than twenty significant digits (the zeros that end the
    numeral do not count) the language lets an implementation round in
    more than one way; from [10^308] on the double may be infinite. *)
Definition numeral (n : Z) : result Z :=
  let extra := Z.of_nat (String.length (decimal n)) - 20 in
  if (n <? 10 ^ 20) || ((n <? 10 ^ 308) && (n mod 10 ^ extra =? 0))
  then Ok (round_double n)
  else Unmodelled.

(** [parseInt(str, 10)] on a string; [None] is [NaN]. *)
Definition parseInt_string (s : string) : result (option Z) :=
  let read (sign : Z) (digits : string) : result (option Z) :=
    match parse_digits digits None with
    | Some n => d <- numeral n ;; Ok (Some (sign * d))
    | None => Ok None
    end in
  match skip_spaces s with
  | String "-" s' => read (-1) s'
  | String "+" s' => read 1 s'
  | s' => read 1 s'
  end.

(* ------------------------------------------------------------------ *)
(** ** Values *)

(** Own properties are kept in the order in which [for ... in] and
    [Object.keys] enumerate them.  An array carries its [length]
    separately: elements are the properties whose key is an array index,
    and a missing index below [length] is a hole.  A property named
    [__proto__] in the list is an own data property, as [JSON.parse]
    creates it. *)
#[warnings="-register-all"]
Inductive value : Type :=
| VUndefined
| VNull
| VBool (b : bool)
| VNum (n : Z)
| VStr (s : string)
| VObject (props : list (string * value))
| VArray (length : Z) (props : list (string * value)).

Definition props : Type := list (string * value).

Definition typeof (v : value) : string :=
  match v with
  | VUndefined => "undefined"
  | VNull => "object"
  | VBool _ => "boolean"
  | VNum _ => "number"
  | VStr _ => "string"
  | VObject _ => "object"
  | VArray _ _ => "object"
  end.

(** [ToBoolean]. *)
Definition truthy (v : value) : bool :=
  match v with
  | VUndefined => false
  | VNull => false
  | VBool b => b
  | VNum n => negb (n =? 0)
  | VStr s => negb (s =? "")%string
  | VObject _ => true
  | VArray _ _ => true
  end.

Fixpoint lookup {A : Type} (k : string) (ps : list (string * A)) : option A :=
  match ps with
  | [] => None
  | (k', v) :: ps' => if (k' =? k)%string then Some v else lookup k ps'
  end.

(** An array index is the canonical decimal notation of an integer
    below [2^32 - 1]. *)
Definition index_of_key (k : string) : option Z :=
  match parse_digits k None with
  | Some n => if (decimal n =? k)%string && (n <? 4294967295) then Some n else None
  | None => None
  end.

Definition has_key (k : string) (ps : list (string * value)) : bool :=
  match lookup k ps with Some _ => true | None => false end.

(** The results of a list of calls made in order: the first that does not
    return ends them. *)
Fixpoint in_order {A : Type} (rs : list (result A)) : result (list A) :=
  match rs with
  | [] => Ok []
  | r :: rs' => a <- r ;; rest <- in_order rs' ;; Ok (a :: rest)
  end.

(** [ToString].  An object is converted by the method found under
    [toString], then by the one under [valueOf].  The model has no
    function value: an own property named [toString] hides the inherited
    method, the inherited [valueOf] returns the object itself, and the
    conversion throws; without it [Object.prototype.toString] answers.
    The [toString] of an array calls what is found under [join], and
    [Object.prototype.toString] when that is no function;
    [Array.prototype.join] converts the elements from the first on, [null]
    and [undefined] to the empty string. *)
Fixpoint to_string (v : value) : result string :=
  match v with
  | VUndefined => Ok "undefined"
  | VNull => Ok "null"
  | VBool true => Ok "true"
  | VBool false => Ok "false"
  | VNum n => Ok (number_to_string n)
  | VStr s => Ok s
  | VObject ps =>
      if has_key "toString" ps then Throw TypeError None
      else Ok "[object Object]"
  | VArray n ps =>
      if has_key "toString" ps then Throw TypeError None
      else if has_key "join" ps then Ok "[object Array]"
      else
        let strs :=
          (fix each (ps : list (string * value)) : list (string * result string) :=
             match ps with
             | [] => []
             | (k, x) :: ps' =>
                 (k, match x with
                     | VUndefined | VNull => Ok ""
                     | _ => to_string x
                     end) :: each ps'
             end) ps in
        parts <- in_order (map (fun i => match lookup (decimal (Z.of_nat i)) strs with
                                         | Some r => r
                                         | None => Ok ""
                                         end)
                               (seq 0 (Z.to_nat n))) ;;
        Ok (join "," parts)
  end.

(** The strings of the elements of an array, as in [to_string]. *)
Definition element_string (x : value) : result string :=
  match x with
  | VUndefined | VNull => Ok ""
  | _ => to_string x
  end.

Fixpoint element_strings (ps : list (string * value))
  : list (string * result string) :=
  match ps with
  | [] => []
  | (k, x) :: ps' => (k, element_string x) :: element_strings ps'
  end.

(** [parseInt(v, 10)]: the argument is first converted to a string. *)
Definition parseInt (v : value) : result (option Z) :=
  s <- to_string v ;; parseInt_string s.

(** The names that the standard prototypes of objects, arrays, strings,
    numbers and booleans define (ECMAScript 2024 with its annex B).  Each
    is a function, but for the accessor [__proto__]. *)
Definition prototype_names : list string :=
  [ "constructor"; "hasOwnProperty"; "isPrototypeOf"; "propertyIsEnumerable";
    "toLocaleString"; "toString"; "valueOf"; "__proto__";
    "__defineGetter__"; "__defineSetter__"; "__lookupGetter__";
    "__lookupSetter__";
    "at"; "concat"; "copyWithin"; "entries"; "every"; "fill"; "filter";
    "find"; "findIndex"; "findLast"; "findLastIndex"; "flat"; "flatMap";
    "forEach"; "includes"; "indexOf"; "join"; "keys"; "lastIndexOf"; "map";
    "pop"; "push"; "reduce"; "reduceRight"; "reverse"; "shift"; "slice";
    "some"; "sort"; "splice"; "toReversed"; "toSorted"; "toSpliced";
    "unshift"; "values"; "with";
    "anchor"; "big"; "blink"; "bold"; "charAt"; "charCodeAt"; "codePointAt";
    "endsWith"; "fixed"; "fontcolor"; "fontsize"; "isWellFormed"; "italics";
    "link"; "localeCompare"; "match"; "matchAll"; "normalize"; "padEnd";
    "padStart"; "repeat"; "replace"; "replaceAll"; "search"; "small";
    "split"; "startsWith"; "strike"; "sub"; "substr"; "substring"; "sup";
    "toLocaleLowerCase"; "toLocaleUpperCase"; "toLowerCase"; "toUpperCase";
    "toWellFormed"; "trim"; "trimEnd"; "trimLeft"; "trimRight"; "trimStart";
    "toExponential"; "toFixed"; "toPrecision" ].

(** A name that a value may inherit from its prototype chain. *)
Definition inherited (k : string) : bool :=
  existsb (String.eqb k) prototype_names.

(** Reading a name that is no own property: [undefined], unless the
    prototype chain may answer. *)
Definition absent (k : string) : result value :=
  if inherited k then Unmodelled else Ok VUndefined.

(** [v[k]]: an own property first, then the prototype chain. *)
Definition get (v : value) (k : string) : result value :=
  match v with
  | VUndefined | VNull => Throw TypeError None
  | VBool _ | VNum _ => absent k
  | VStr s =>
      if (k =? "length")%string then Ok (VNum (len s))
      else match index_of_key k with
           | Some i =>
               match String.get (Z.to_nat i) s with
               | Some c => Ok (VStr (str1 c))
               | None => Ok VUndefined
               end
           | None => absent k
           end
  | VObject ps =>
      match lookup k ps with Some x => Ok x | None => absent k end
  | VArray n ps =>
      if (k =? "length")%string then Ok (VNum n)
      else match lookup k ps with Some x => Ok x | None => absent k end
  end.

(** Array indices enumerate first, in ascending order; other keys follow
    in creation order. *)
Definition goes_before (k k' : string) : bool :=
  match index_of_key k, index_of_key k' with
  | Some i, Some j => i <? j
  | Some _, None => true
  | None, _ => false
  end.

Fixpoint put (k : string) (x : value) (ps : props) : props :=
  match ps with
  | [] => [(k, x)]
  | (k', v) :: ps' =>
      if (k' =? k)%string then (k, x) :: ps'
      else if goes_before k k' then (k, x) :: (k', v) :: ps'
      else (k', v) :: put k x ps'
  end.

(** The properties that remain when the length of an array becomes [m]. *)
Definition below (m : Z) (kv : string * value) : bool :=
  match index_of_key (fst kv) with
  | Some i => i <? m
  | None => true
  end.

(** Assigning [length] of an array: the value must be a valid length, and
    elements at or above the new length are deleted.  Strings and objects
    would first be converted to a number, which is outside the model. *)
Definition set_length (n : Z) (ps : props) (x : value) : result value :=
  let resize (m : Z) : result value :=
    if (0 <=? m) && (m <? 4294967296)
    then Ok (VArray m (if m <? n then filter (below m) ps else ps))
    else Throw RangeError None in
  match x with
  | VNum m => resize m
  | VNull => resize 0
  | VBool b => resize (if b then 1 else 0)
  | VUndefined => Throw RangeError None
  | VStr _ | VObject _ | VArray _ _ => Unmodelled
  end.

(** Writing [__proto__] where it is no own property calls the setter of
    [Object.prototype], which changes the prototype of the object. *)
Definition calls_setter (k : string) (ps : props) : bool :=
  (k =? "__proto__")%string && negb (has_key k ps).

(** [v[k] = x] in strict mode.  The other inherited names are data
    properties, which an assignment hides by an own property. *)
Definition set (v : value) (k : string) (x : value) : result value :=
  match v with
  | VUndefined | VNull => Throw TypeError None
  | VBool _ | VNum _ | VStr _ =>
      if (k =? "__proto__")%string then Unmodelled else Throw TypeError None
  | VObject ps =>
      if calls_setter k ps then Unmodelled else Ok (VObject (put k x ps))
  | VArray n ps =>
      if (k =? "length")%string then set_length n ps x
      else if calls_setter k ps then Unmodelled
      else Ok (VArray (match index_of_key k with
                       | Some i => Z.max n (i + 1)
                       | None => n
                       end)
                      (put k x ps))
  end.

(** The keys visited by [for (p in v)]. *)
Definition own_keys (v : value) : list string :=
  match v with
  | VObject ps => map fst ps
  | VArray _ ps => map fst ps
  | VStr s => map (fun i => decimal (Z.of_nat i)) (seq 0 (String.length s))
  | _ => []
  end.

(** The array literal [[x0, x1, ...]]. *)
Fixpoint index_props (i : Z) (xs : list value) : props :=
  match xs with
  | [] => []
  | x :: xs' => (decimal i, x) :: index_props (i + 1) xs'
  end.

Definition arr (xs : list value) : value :=
  VArray (Z.of_nat (List.length xs)) (index_props 0 xs).

(* ------------------------------------------------------------------ *)
(** ** Regular expressions

    Only the patterns this program builds or receives are modelled. *)

(** Characters with a meaning of their own in a pattern. *)
Definition is_syntax_char (c : ascii) : bool :=
  existsb (Ascii.eqb c)
    ["^"; "$"; "\"; "."; "*"; "+"; "?"; "("; ")"; "["; "]"; "{"; "}"; "|"]%char.

Fixpoint all_chars (p : ascii -> bool) (s : string) : bool :=
  match s with
  | EmptyString => true
  | String c s' => p c && all_chars p s'
  end.

(** *** Patterns given to [String.prototype.search]

    A pattern of ordinary characters and [.]; a pattern with any other
    syntax character is outside the model. *)
Inductive atom : Type :=
| Lit (c : ascii)
| AnyChar.

Fixpoint compile (pattern : string) : result (list atom) :=
  match pattern with
  | EmptyString => Ok []
  | String c rest =>
      if Ascii.eqb c "." then (atoms <- compile rest ;; Ok (AnyChar :: atoms))
      else if is_syntax_char c then Unmodelled
      else (atoms <- compile rest ;; Ok (Lit c :: atoms))
  end.

Definition is_line_terminator (c : ascii) : bool :=
  (code c =? 10) || (code c =? 13).

Fixpoint match_here (atoms : list atom) (s : string) : bool :=
  match atoms, s with
  | [], _ => true
  | Lit a :: atoms', String c s' => Ascii.eqb a c && match_here atoms' s'
  | AnyChar :: atoms', String c s' =>
      negb (is_line_terminator c) && match_here atoms' s'
  | _ :: _, EmptyString => false
  end.

Fixpoint search_from (atoms : list atom) (s : string) (i : Z) : Z :=
  if match_here atoms s then i
  else match s with
       | EmptyString => -1
       | String _ s' => search_from atoms s' (i + 1)
       end.

(** [s.search(pattern)]: the index of the first match, or [-1]. *)
Definition search (s pattern : string) : result Z :=
  atoms <- compile pattern ;; Ok (search_from atoms s 0).

(** *** Patterns of [slugify]: [[a-z0-9]] followed by a braced group *)

Definition is_slug_char (c : ascii) : bool := is_lower c || is_digit c.

(** [Runs lo hi] is [[a-z0-9]{lo,hi}] ([{lo,}] when [hi] is [None]);
    [Followed text] is [[a-z0-9]] followed by the literal [text]. *)
Inductive slug_rx : Type :=
| Runs (lo : Z) (hi : option Z)
| Followed (text : string).

Definition number_of (digits : string) : Z :=
  match parse_digits digits None with Some n => n | None => 0 end.

Definition is_number (s : string) : bool :=
  negb (s =? "")%string && all_chars is_digit s.

(** Splits [s] at its first comma; [cur] is the text read so far. *)
Fixpoint cut_at_comma (s cur : string) : string * option string :=
  match s with
  | EmptyString => (cur, None)
  | String c s' =>
      if Ascii.eqb c "," then (cur, Some s')
      else cut_at_comma s' (cur ++ str1 c)
  end.

(** The text between the braces of ["{" ++ body ++ "}"], when [body] has
    no syntax character. *)
Definition brace_body (t : string) : option string :=
  match t with
  | String c r =>
      let n := String.length r in
      let body := take (n - 1) r in
      if (Ascii.eqb c "{" && (drop (n - 1) r =? "}")%string
          && all_chars (fun c => negb (is_syntax_char c)) body)%bool
      then Some body else None
  | EmptyString => None
  end.

(** [new RegExp(pattern, 'g')].  A braced group is a quantifier only in the
    forms [{n}], [{n,}] and [{n,m}] with decimal [n] and [m]; [{n,m}] with
    [m < n] is a syntax error; any other braced text stands for itself. *)
Definition RegExp (pattern : string) : result slug_rx :=
  if starts "[a-z0-9]" pattern then
    let t := drop 8 pattern in
    match brace_body t with
    | Some body =>
        match cut_at_comma body "" with
        | (a, None) =>
            if is_number a then Ok (Runs (number_of a) (Some (number_of a)))
            else Ok (Followed t)
        | (a, Some b) =>
            if is_number a && (b =? "")%string then Ok (Runs (number_of a) None)
            else if is_number a && is_number b then
              if number_of a <=? number_of b
              then Ok (Runs (number_of a) (Some (number_of b)))
              else Throw SyntaxError None
            else Ok (Followed t)
        end
    | None => Unmodelled
    end
  else Unmodelled.

(** [let rxSlugWords = /[a-z0-9]{1,}/g]. *)
Definition rxSlugWords : slug_rx := Runs 1 None.

Fixpoint run_length (s : string) : nat :=
  match s with
  | String c s' => if is_slug_char c then S (run_length s') else O
  | EmptyString => O
  end.

(** The length of the match starting at the head of [s], if there is
    one; quantifiers are greedy. *)
Definition exec_here (rx : slug_rx) (s : string) : option nat :=
  match rx with
  | Runs lo hi =>
      let r := Z.of_nat (run_length s) in
      let k := match hi with Some h => Z.min r h | None => r end in
      if lo <=? k then Some (Z.to_nat k) else None
  | Followed text =>
      match s with
      | String c s' =>
          if is_slug_char c && starts text s'
          then Some (S (String.length text)) else None
      | EmptyString => None
      end
  end.

(** [s.match(rx)] for a global [rx], as the list of matches ([null] is the
    empty list): matches are taken from left to right, and the scan steps
    one character forward after an empty match or where nothing
    matches. *)
Fixpoint match_all (fuel : nat) (rx : slug_rx) (s : string) : list string :=
  match fuel with
  | O => []
  | S fuel' =>
      let step :=
        match s with
        | EmptyString => []
        | String _ s' => match_all fuel' rx s'
        end in
      match exec_here rx s with
      | Some O => "" :: step
      | Some k => take k s :: match_all fuel' rx (drop k s)
      | None => step
      end
  end.

(** *** [rxPlaceholder = /\{(\w+)\}/g] *)

(** The longest prefix of word characters, and what follows it. *)
Fixpoint word_run (s : string) : string * string :=
  match s with
  | String c s' =>
      if is_word c then let (w, rest) := word_run s' in (String c w, rest)
      else (EmptyString, s)
  | EmptyString => (EmptyString, EmptyString)
  end.

(** A match of [rxPlaceholder] at the head of [s]: the captured
    identifier and the text after the closing brace. *)
Definition match_placeholder (s : string) : option (string * string) :=
  match s with
  | String c s' =>
      if Ascii.eqb c "{" then
        match word_run s' with
        | (String _ _ as p, String d rest) =>
            if Ascii.eqb d "}" then Some (p, rest) else None
        | _ => None
        end
      else None
  | EmptyString => None
  end.

(** [s.replace(rxPlaceholder, (match, p) => f(p))]: the function is called
    on the matches from left to right, and what it returns is converted to
    a string at once ([f] does both). *)
Fixpoint replace_placeholders (fuel : nat) (f : string -> result string)
  (s : string) : result string :=
  match fuel with
  | O => Ok s
  | S fuel' =>
      match match_placeholder s with
      | Some (p, rest) =>
          t <- f p ;;
          r <- replace_placeholders fuel' f rest ;;
          Ok (t ++ r)
      | None =>
          match s with
          | EmptyString => Ok EmptyString
          | String c s' =>
              r <- replace_placeholders fuel' f s' ;; Ok (String c r)
          end
      end
  end.

(* ------------------------------------------------------------------ *)
(** ** The lodash functions the mixins call *)

Module Lodash.

(** [_.startsWith(string, target, position)]. *)
Definition startsWith (str target : string) (position : option Z) : bool :=
  let p := match position with
           | None => 0
           | Some p => Z.max 0 (Z.min p (len str))
           end in
  (slice str p (p + len target) =? target)%string.

(** [_.words(string, pattern)] with a pattern: [string.match(pattern) || []]. *)
Definition words (s : string) (rx : slug_rx) : list string :=
  match_all (S (String.length s)) rx s.

(** [_.deburr] on the Latin-1 supplement: letters lose their diacritics;
    the signs [×] (215) and [÷] (247) are kept. *)
Definition deburr_char (c : ascii) : string :=
  let n := code c in
  if n <? 192 then str1 c
  else if n <=? 197 then "A"
  else if n =? 198 then "Ae"
  else if n =? 199 then "C"
  else if n <=? 203 then "E"
  else if n <=? 207 then "I"
  else if n =? 208 then "D"
  else if n =? 209 then "N"
  else if n <=? 214 then "O"
  else if n =? 215 then str1 c
  else if n =? 216 then "O"
  else if n <=? 220 then "U"
  else if n =? 221 then "Y"
  else if n =? 222 then "Th"
  else if n =? 223 then "ss"
  else if n <=? 229 then "a"
  else if n =? 230 then "ae"
  else if n =? 231 then "c"
  else if n <=? 235 then "e"
  else if n <=? 239 then "i"
  else if n =? 240 then "d"
  else if n =? 241 then "n"
  else if n <=? 246 then "o"
  else if n =? 247 then str1 c
  else if n =? 248 then "o"
  else if n <=? 252 then "u"
  else if n =? 253 then "y"
  else if n =? 254 then "th"
  else "y".

Fixpoint deburr (s : string) : string :=
  match s with
  | EmptyString => EmptyString
  | String c s' => deburr_char c ++ deburr s'
  end.

End Lodash.

(* ------------------------------------------------------------------ *)
(** ** The mixins of [src/index.js] *)

(** *** [_.mergeRecursive] *)

Definition is_object_type (v : value) : bool := (typeof v =? "object")%string.

(** The loop [for (let p in source)] of [_.mergeRecursive(target, source)]
    over the keys still to visit; [recur] is the recursive call. *)
Fixpoint merge_keys (recur : value -> value -> result value) (source : value)
  (keys : list string) (target : value) : result value :=
  match keys with
  | [] => Ok target
  | p :: keys' =>
      tp <- get target p ;;
      target' <-
        (if truthy tp && is_object_type tp
         then sp <- get source p ;;
              merged <- recur tp sp ;;
              set target p merged
         else sp <- get source p ;;
              set target p sp) ;;
      merge_keys recur source keys' target'
  end.

(** [_.mergeRecursive(target, source)]; [fuel] bounds the depth of the
    recursion. *)
Fixpoint merge_source (fuel : nat) (target source : value) : result value :=
  match fuel with
  | O => OutOfFuel
  | S fuel' =>
      merge_keys (merge_source fuel') source (own_keys source) target
  end.

Fixpoint merge_sources (fuel : nat) (target : value) (sources : list value)
  : result value :=
  match sources with
  | [] => Ok target
  | source :: rest =>
      target' <- merge_source fuel target source ;;
      merge_sources fuel target' rest
  end.

(** The nesting depth of a value. *)
Fixpoint depth (v : value) : nat :=
  let fix deepest (ps : list (string * value)) : nat :=
    match ps with
    | [] => O
    | (_, x) :: ps' => Nat.max (depth x) (deepest ps')
    end in
  match v with
  | VObject ps => S (deepest ps)
  | VArray _ ps => S (deepest ps)
  | _ => O
  end.

(** The depth of the deepest property value, as in [depth]. *)
Fixpoint deepest (ps : props) : nat :=
  match ps with
  | [] => O
  | (_, x) :: ps' => Nat.max (depth x) (deepest ps')
  end.

(** [_.mergeRecursive(target, ...sources)].  The recursion descends into
    [target], whose slots come from [target] or from a source, so it is no
    deeper than the deepest of the arguments. *)
Definition mergeRecursive (target : value) (sources : list value)
  : result value :=
  match sources with
  | [] => Throw Error
            (Some "There should be at least 2 arguments passed to _.mergeRecursive()")
  | _ =>
      merge_sources
        (S (fold_right Nat.max (depth target) (map depth sources)))
        target sources
  end.

(** *** [_.slugify] *)

Definition is_null (v : value) : bool :=
  match v with VNull => true | _ => false end.

Definition slugify (str : string) (min max : value) : result string :=
  if truthy (VStr str) then
    rx <- (if negb (truthy min) && negb (truthy max) then Ok rxSlugWords
           else if truthy min && truthy max then
             a <- to_string min ;;
             b <- to_string max ;;
             RegExp ("[a-z0-9]{" ++ a ++ "," ++ b ++ "}")
           else if truthy min && negb (truthy max) then
             a <- to_string min ;;
             RegExp ("[a-z0-9]{" ++ a ++ ",}")
           else if is_null min && truthy max then
             b <- to_string max ;;
             RegExp ("[a-z0-9]{," ++ b ++ "}")
           else Throw RangeError (Some "Bad arguments passed in _.slugify()")) ;;
    Ok (join "-" (Lodash.words (Lodash.deburr (toLowerCase str)) rx))
  else Ok "".

(** *** [_.placeholder] *)

(** What the function given to [replace] returns for the identifier [p],
    as a string: [params[p] || p]. *)
Definition token_text (params : value) (p : string) : result string :=
  v <- get params p ;;
  if truthy v then to_string v else Ok p.

(** [params] is [VUndefined] when the argument is omitted. *)
Definition placeholder (str : string) (params : value) : result string :=
  if truthy params then
    replace_placeholders (S (String.length str)) (token_text params) str
  else Ok str.

(** *** [_.insertStr], [_.ensureStartsWith] *)

Definition insertStr (str target : string) (position : Z) : string :=
  substr str 0 position ++ target ++ substr_from str position.

(** [None] stands for an omitted argument, which takes its default. *)
Definition ensureStartsWith (str : option string) (target : string)
  (position : option Z) : string :=
  let str := match str with Some s => s | None => "" end in
  let position := match position with Some p => p | None => 0 end in
  if Lodash.startsWith str target (Some position) then str
  else insertStr str target position.

(** *** [_.checkSubject] *)

Definition checkSubject (subject input : value) : result bool :=
  subject <- to_string subject ;;
  input <- to_string input ;;
  if (subject =? input)%string then Ok true
  else if len input =? 0 then Ok false
  else i <- search (toLowerCase subject) (toLowerCase input) ;;
       Ok (negb (i =? -1)).

(** *** [_.strToSec], [_.secToStr], [_.msToStr] *)

(** An element of a destructured array: [undefined] past its end. *)
Definition element (parts : list string) (i : nat) : value :=
  match nth_error parts i with
  | Some s => VStr s
  | None => VUndefined
  end.

(** [n || 0] for a number [n]: [NaN] and [0] give [0]. *)
Definition or_zero (n : option Z) : Z :=
  match n with Some n => n | None => 0 end.

Definition strToSec (hms : string) : result Z :=
  let parts := split ":" hms in
  h <- parseInt (element parts 0) ;;
  m <- parseInt (element parts 1) ;;
  s <- parseInt (element parts 2) ;;
  Ok (add (add (mul (or_zero h) 3600) (mul (or_zero m) 60)) (or_zero s)).

(** [if (n < 10) n = '0' + n], then the conversion of the template. *)
Definition pad2 (n : Z) : string :=
  if n <? 10 then "0" ++ number_to_string n else number_to_string n.

(** [Math.floor(a / b)] for integers up to [2^53] in magnitude and
    [b > 0]: a quotient that is no integer lies at least [1 / b] below the
    next one, which is more than half the distance between the doubles
    there, so the rounded quotient has the same integer part.  Larger
    operands are outside the model. *)
Definition floor_div (a b : Z) : result Z :=
  if (Z.abs a <=? two53) && (0 <? b) && (b <=? two53) then Ok (a / b)
  else Unmodelled.

(** With [NaN] every component is [NaN], and no comparison holds. *)
Definition secToStr (sec : value) : result string :=
  sec <- parseInt sec ;;
  match sec with
  | None => Ok "NaN:NaN:NaN"
  | Some sec =>
      h <- floor_div sec 3600 ;;
      m <- floor_div (sub sec (mul h 3600)) 60 ;;
      let s := sub (sub sec (mul h 3600)) (mul m 60) in
      Ok (pad2 h ++ ":" ++ pad2 m ++ ":" ++ pad2 s)
  end.

(** [secToStr(NaN)] is the string of [NaN] components. *)
Definition msToStr (ms : value) : result string :=
  n <- parseInt ms ;;
  match n with
  | None => Ok "NaN:NaN:NaN"
  | Some n => q <- floor_div n 1000 ;; secToStr (VNum q)
  end.

(** *** [_.toByteUnits], [_.toByteRateUnits] *)

Definition def : list (Z * string) :=
  [ (1, "byte");
    (1024, "KB");
    (1024 * 1024, "MB");
    (1024 * 1024 * 1024, "GB");
    (1024 * 1024 * 1024 * 1024, "TB") ].

(** [(num / den).toFixed(2)] for [0 <= num] and a power of two [den]: the
    quotient is exact, and a tie rounds up. *)
Definition toFixed2 (num den : Z) : string :=
  let n := (200 * num + den) / (2 * den) in
  number_to_string (n / 100)
  ++ "." ++ str1 (digit_char (n / 10 mod 10)) ++ str1 (digit_char (n mod 10)).

(** The loop over [def]; [prev] is [def[i - 1]], undefined at [i = 0]. *)
Fixpoint units_loop (b : Z) (prev : option (Z * string))
  (rest : list (Z * string)) : option string :=
  match rest with
  | [] => None
  | (threshold, label) :: rest' =>
      match prev with
      | Some (d, unit_label) =>
          if b <? threshold then Some (toFixed2 b d ++ " " ++ unit_label)
          else units_loop b (Some (threshold, label)) rest'
      | None => units_loop b (Some (threshold, label)) rest'
      end
  end.

Definition toByteUnits (b : value) : result string :=
  n <- parseInt b ;;
  Ok match n with
     | None => "NaN byte"
     | Some n =>
         let b := Z.abs n in
         match units_loop b None def with
         | Some s => s
         | None => number_to_string b ++ " byte" ++ (if 1 <? b then "s" else "")
         end
     end.

Definition toByteRateUnits (b : value) : result string :=
  s <- toByteUnits b ;; Ok (s ++ "/s").

(** *** [_.getErrorMessage] *)

Definition getErrorMessage (res : value) : result value :=
  if is_object_type res then
    message <- get res "message" ;;
    if truthy message then Ok message else
    data <- get res "data" ;;
    found <-
      (if truthy data then
         data_message <- get data "message" ;;
         if truthy data_message then Ok (Some data_message) else
         data_error <- get data "error" ;;
         if (typeof data_error =? "string")%string then Ok (Some data_error)
         else if is_object_type data_error then
           error_message <- get data_error "message" ;;
           Ok (if truthy error_message then Some error_message else None)
         else Ok None
       else Ok None) ;;
    match found with
    | Some v => Ok v
    | None =>
        statusText <- get res "statusText" ;;
        if truthy statusText then Ok statusText else
        status <- get res "status" ;;
        if truthy status then Ok status else Ok res
    end
  else Ok res.

(* ------------------------------------------------------------------ *)
(** ** The other mixins of [src/index.js] *)

(** *** [_.toType], [_.toId], [_.toData] *)

(** [({}).toString.call(obj)]. *)
Definition class_string (v : value) : string :=
  match v with
  | VUndefined => "[object Undefined]"
  | VNull => "[object Null]"
  | VBool _ => "[object Boolean]"
  | VNum _ => "[object Number]"
  | VStr _ => "[object String]"
  | VObject _ => "[object Object]"
  | VArray _ _ => "[object Array]"
  end.

(** The class [[a-z|A-Z]] of the pattern of [toType]. *)
Definition is_tag_char (c : ascii) : bool :=
  is_lower c || is_upper c || (code c =? 124).

Fixpoint tag_run (s : string) : string :=
  match s with
  | String c s' => if is_tag_char c then String c (tag_run s') else EmptyString
  | EmptyString => EmptyString
  end.

(** The group captured by the first match of [/\s([a-z|A-Z]+)/] in [s]. *)
Fixpoint match_tag (s : string) : option string :=
  match s with
  | EmptyString => None
  | String c s' =>
      if is_space c then
        match tag_run s' with
        | EmptyString => match_tag s'
        | w => Some w
        end
      else match_tag s'
  end.

(** Reading [[1]] of a failed match would throw. *)
Definition toType (obj : value) : result string :=
  match match_tag (class_string obj) with
  | Some w => Ok (toLowerCase w)
  | None => Throw TypeError None
  end.

Definition toId (resource : value) : result value :=
  if is_object_type resource then
    id <- get resource "id" ;;
    if truthy id then Ok id else get resource "_id"
  else Ok resource.

Definition toData (resource : value) : result value :=
  formData <- get resource "_formData" ;;
  if truthy formData then Ok formData else Ok resource.

(** *** [_.compareWithOperator] *)

(** White space is trimmed at both ends before a string is read as a
    number. *)
Fixpoint trim_end (s : string) : string :=
  match s with
  | EmptyString => EmptyString
  | String c s' =>
      let r := trim_end s' in
      if is_space c && (r =? "")%string then EmptyString else String c r
  end.

(** [StringToNumber] on the empty string and on decimal integers with an
    optional sign; other numeric notations are outside the model. *)
Definition string_to_number (s : string) : result Z :=
  match trim_end (skip_spaces s) with
  | EmptyString => Ok 0
  | String c rest as t =>
      if Ascii.eqb c "-" then
        if is_number rest then n <- numeral (number_of rest) ;; Ok (- n)
        else Unmodelled
      else if Ascii.eqb c "+" then
        if is_number rest then numeral (number_of rest) else Unmodelled
      else if is_number t then numeral (number_of t) else Unmodelled
  end.

(** [ToPrimitive]: an object or an array becomes its string (in the
    model the two orders of [valueOf] and [toString] give the same). *)
Definition to_primitive (v : value) : result value :=
  match v with
  | VObject _ | VArray _ _ => s <- to_string v ;; Ok (VStr s)
  | _ => Ok v
  end.

(** [ToNumber] of a primitive; [None] is [NaN]. *)
Definition to_number (v : value) : result (option Z) :=
  match v with
  | VUndefined => Ok None
  | VNull => Ok (Some 0)
  | VBool b => Ok (Some (if b then 1 else 0))
  | VNum n => Ok (Some n)
  | VStr s => n <- string_to_number s ;; Ok (Some n)
  | VObject _ | VArray _ _ =>
      s <- to_string v ;; n <- string_to_number s ;; Ok (Some n)
  end.

(** [x < y] before its result is read: [None] is the undefined result of
    a comparison with [NaN]. *)
Definition less_than (x y : value) : result (option bool) :=
  px <- to_primitive x ;;
  py <- to_primitive y ;;
  match px, py with
  | VStr a, VStr b => Ok (Some (a <? b)%string)
  | _, _ =>
      nx <- to_number px ;;
      ny <- to_number py ;;
      Ok (match nx, ny with
          | Some a, Some b => Some (a <? b)
          | _, _ => None
          end)
  end.

(** [x === y]; whether two objects are the same object is not a question
    the model of values can answer. *)
Definition strict_equal (x y : value) : result bool :=
  match x, y with
  | VUndefined, VUndefined => Ok true
  | VNull, VNull => Ok true
  | VBool a, VBool b => Ok (Bool.eqb a b)
  | VNum a, VNum b => Ok (a =? b)
  | VStr a, VStr b => Ok (a =? b)%string
  | (VObject _ | VArray _ _), (VObject _ | VArray _ _) => Unmodelled
  | _, _ => Ok false
  end.

Definition same_type (x y : value) : bool :=
  match x, y with
  | VUndefined, VUndefined => true
  | VNull, VNull => true
  | VBool _, VBool _ => true
  | VNum _, VNum _ => true
  | VStr _, VStr _ => true
  | (VObject _ | VArray _ _), (VObject _ | VArray _ _) => true
  | _, _ => false
  end.

Definition is_nullish (v : value) : bool :=
  match v with VUndefined | VNull => true | _ => false end.

(** The operand of [==] once a boolean has become a number and an object
    its string. *)
Definition loose_operand (v : value) : result value :=
  match v with
  | VBool b => Ok (VNum (if b then 1 else 0))
  | _ => to_primitive v
  end.

(** [x == y]. *)
Definition loose_equal (x y : value) : result bool :=
  if same_type x y then strict_equal x y
  else if is_nullish x && is_nullish y then Ok true
  else if is_nullish x || is_nullish y then Ok false
  else
    ox <- loose_operand x ;;
    oy <- loose_operand y ;;
    match ox, oy with
    | VNum a, VNum b => Ok (a =? b)
    | VStr a, VStr b => Ok (a =? b)%string
    | VNum a, VStr b => n <- string_to_number b ;; Ok (a =? n)
    | VStr a, VNum b => n <- string_to_number a ;; Ok (n =? b)
    | _, _ => Ok false
    end.

Definition result_map {A B : Type} (f : A -> B) (r : result A) : result B :=
  a <- r ;; Ok (f a).

(** The quotation mark. *)
Definition dquote : string := str1 (char_of_code 34).

(** The message of the [default] branch, for the string of the operator:
    ['Operator "' + operator + '" is not supported.']. *)
Definition unsupported_operator (operator : string) : string :=
  "Operator " ++ dquote ++ operator ++ dquote ++ " is not supported.".

(** The [switch] compares [operator] with each label by [===], so only a
    string can select a branch. *)
Definition compareWithOperator (v1 operator v2 : value) : result bool :=
  let unsupported :=
    s <- to_string operator ;; Throw RangeError (Some (unsupported_operator s)) in
  match operator with
  | VStr op =>
      if (op =? "===")%string then strict_equal v1 v2
      else if (op =? "!==")%string then result_map negb (strict_equal v1 v2)
      else if (op =? ">")%string then
        r <- less_than v2 v1 ;; Ok (match r with Some b => b | None => false end)
      else if (op =? "<")%string then
        r <- less_than v1 v2 ;; Ok (match r with Some b => b | None => false end)
      else if (op =? ">=")%string then
        r <- less_than v1 v2 ;;
        Ok (match r with Some b => negb b | None => false end)
      else if (op =? "<=")%string then
        r <- less_than v2 v1 ;;
        Ok (match r with Some b => negb b | None => false end)
      else if (op =? "==")%string then loose_equal v1 v2
      else if (op =? "!=")%string then result_map negb (loose_equal v1 v2)
      else unsupported
  | _ => unsupported
  end.

(** *** [_.ucFirst], [_.lcFirst], [_.dotCase] *)

(** [String.prototype.toUpperCase] on one code unit below 256.  The sharp
    s becomes two letters; the micro sign and the y with diaeresis have
    their capitals above 255, outside the model of strings. *)
Definition upper_char (c : ascii) : result string :=
  if is_lower c then Ok (str1 (char_of_code (code c - 32)))
  else if code c =? 223 then Ok "SS"
  else if (code c =? 181) || (code c =? 255) then Unmodelled
  else if in_range 224 254 c && negb (code c =? 247)
       then Ok (str1 (char_of_code (code c - 32)))
       else Ok (str1 c).

Fixpoint toUpperCase (s : string) : result string :=
  match s with
  | EmptyString => Ok EmptyString
  | String c s' =>
      u <- upper_char c ;;
      rest <- toUpperCase s' ;;
      Ok (u ++ rest)
  end.

(** [str.charAt(0)]. *)
Definition charAt0 (s : string) : string :=
  match s with
  | EmptyString => EmptyString
  | String c _ => str1 c
  end.

Definition ucFirst (str : string) : result string :=
  first <- toUpperCase (charAt0 str) ;;
  Ok (first ++ substr_from str 1).

Definition lcFirst (str : string) : string :=
  toLowerCase (charAt0 str) ++ substr_from str 1.

(** [s.replace(pattern, replacement)] for a string [pattern] and a
    [replacement] without [$]: the first occurrence is replaced. *)
Fixpoint replace_first (pattern replacement s : string) : string :=
  if starts pattern s then replacement ++ drop (String.length pattern) s
  else match s with
       | EmptyString => EmptyString
       | String c s' => String c (replace_first pattern replacement s')
       end.

Section CaseOfLodash.

(** [_.snakeCase] is lodash's own. *)
Variable snakeCase : string -> string.

Definition dotCase (str : string) : string :=
  replace_first "_" "." (snakeCase str).

End CaseOfLodash.

(** *** [_.ensureEndsWith] *)

(** [_.endsWith(string, target, position)] of lodash. *)
Definition endsWith (str target : string) (position : option Z) : bool :=
  let length := len str in
  let position := match position with
                  | None => length
                  | Some p => Z.max 0 (Z.min p length)
                  end in
  let finish := position in
  let position := position - len target in
  (0 <=? position) && (slice str position finish =? target)%string.

Definition ensureEndsWith (str : option string) (target : string)
  (position : option Z) : string :=
  let str := match str with Some s => s | None => "" end in
  if endsWith str target position then str
  else
    let position := match position with Some p => p | None => len str end in
    insertStr str target position.

(* ------------------------------------------------------------------ *)
(** ** Notions and tactics used in the properties *)


(** A string without any occurrence of the character [c]. *)
Definition free_of (c : ascii) (s : string) : bool :=
  all_chars (fun x => negb (Ascii.eqb x c)) s.

(** [r] is an exception of class [c]. *)
Definition is_throw {A : Type} (c : exn_class) (r : result A) : bool :=
  match r, c with
  | Throw TypeError _, TypeError => true
  | Throw RangeError _, RangeError => true
  | Throw SyntaxError _, SyntaxError => true
  | Throw Error _, Error => true
  | _, _ => false
  end.

Definition is_array (v : value) : bool :=
  match v with VArray _ _ => true | _ => false end.

(** A non-null object: what the test of [mergeRecursive] recurses into. *)
Definition is_container (v : value) : bool := truthy v && is_object_type v.


(** [r] is not a fuel exhaustion, and a value it returns is no deeper
    than [n]. *)
Definition within {n : nat} (r : result value) : Prop :=
  match r with
  | OutOfFuel => False
  | Ok v => (depth v <= n)%nat
  | _ => True
  end.
Arguments within n r : clear implicits.

(** A key that is neither [length] nor a name of the prototypes. *)
Definition ordinary (k : string) : bool :=
  negb (k =? "length")%string && negb (inherited k).

(** Every own property of every object or array inside [v] has an
    ordinary key. *)
Fixpoint ordinary_keys (v : value) : bool :=
  let fix all (ps : list (string * value)) : bool :=
    match ps with
    | [] => true
    | (k, x) :: ps' => ordinary k && ordinary_keys x && all ps'
    end in
  match v with
  | VObject ps => all ps
  | VArray _ ps => all ps
  | _ => true
  end.

(** The same test on a list of properties, as in [ordinary_keys]. *)
Fixpoint ordinary_props (ps : props) : bool :=
  match ps with
  | [] => true
  | (k, x) :: ps' => ordinary k && ordinary_keys x && ordinary_props ps'
  end.






(** The exception of the last branch of [slugify]. *)
Definition bad_arguments : result string :=
  Throw RangeError (Some "Bad arguments passed in _.slugify()").

(** The operators of [compareWithOperator]. *)
Definition operators : list string :=
  ["==="; "!=="; ">"; "<"; ">="; "<="; "=="; "!="].

(** A character of a slug: a lowercase letter, a digit or the hyphen. *)
Definition is_slug_or_hyphen (c : ascii) : bool :=
  is_slug_char c || Ascii.eqb c "-".

(** A word of a slug: one or more characters of [[a-z0-9]]. *)
Definition is_slug_word (w : string) : Prop :=
  w <> "" /\ all_chars is_slug_char w = true.

(** A conversion to a string returns, or throws a [TypeError]. *)
Definition converts (r : result string) : Prop :=
  (exists s, r = Ok s) \/ r = Throw TypeError None.

(** Case analysis on the 256 characters. *)
Ltac each_char c := destruct c as [[] [] [] [] [] [] [] []].

(* ================================================================== *)
(** * Properties *)

(** ** Strings *)

Lemma append_nil_r (s : string) : s ++ "" = s.
Proof. induction s as [|c s IH]; simpl; [reflexivity | now rewrite IH]. Qed.

Lemma append_assoc (s1 s2 s3 : string) : (s1 ++ s2) ++ s3 = s1 ++ (s2 ++ s3).
Proof. induction s1 as [|c s1 IH]; simpl; [reflexivity | now rewrite IH]. Qed.

Lemma length_append (s1 s2 : string) :
  String.length (s1 ++ s2) = (String.length s1 + String.length s2)%nat.
Proof. induction s1 as [|c s1 IH]; simpl; [reflexivity | now rewrite IH]. Qed.

Lemma take_append (s1 s2 : string) : take (String.length s1) (s1 ++ s2) = s1.
Proof. induction s1 as [|c s1 IH]; simpl; [now destruct s2 | now rewrite IH]. Qed.

Lemma drop_append (s1 s2 : string) : drop (String.length s1) (s1 ++ s2) = s2.
Proof. induction s1 as [|c s1 IH]; simpl; [reflexivity | exact IH]. Qed.

Lemma take_drop (n : nat) (s : string) : take n s ++ drop n s = s.
Proof.
  revert s; induction n as [|n IH]; intros [|c s]; simpl; try reflexivity.
  now rewrite IH.
Qed.

Lemma take_0 (s : string) : take 0 s = "".
Proof. now destruct s. Qed.

Lemma drop_0 (s : string) : drop 0 s = s.
Proof. now destruct s. Qed.

Lemma starts_append (s1 s2 : string) : starts s1 (s1 ++ s2) = true.
Proof.
  induction s1 as [|c s1 IH]; simpl; [reflexivity|].
  now rewrite Ascii.eqb_refl, IH.
Qed.


Lemma all_chars_append (p : ascii -> bool) (s1 s2 : string) :
  all_chars p (s1 ++ s2) = all_chars p s1 && all_chars p s2.
Proof.
  induction s1 as [|c s1 IH]; simpl; [reflexivity|].
  now rewrite IH, andb_assoc.
Qed.

(** ** Characters and digits *)

Lemma code_char_of_code (n : Z) : 0 <= n < 256 -> code (char_of_code n) = n.
Proof.
  intros H. unfold code, char_of_code.
  rewrite N_ascii_embedding; [lia|].
  change 256%N with (Z.to_N 256). apply Z2N.inj_lt; lia.
Qed.

Lemma code_range (c : ascii) : 0 <= code c < 256.
Proof.
  unfold code. pose proof (N_ascii_bounded c). lia.
Qed.

Lemma char_of_code_code (c : ascii) : char_of_code (code c) = c.
Proof.
  unfold code, char_of_code. rewrite N2Z.id. apply ascii_N_embedding.
Qed.

Lemma is_digit_digit_char (d : Z) : 0 <= d < 10 -> is_digit (digit_char d) = true.
Proof.
  intros H. unfold is_digit, in_range, digit_char.
  rewrite code_char_of_code by lia. lia.
Qed.

Lemma digit_val_digit_char (d : Z) : 0 <= d < 10 -> digit_val (digit_char d) = d.
Proof.
  intros H. unfold digit_val, digit_char. rewrite code_char_of_code by lia. lia.
Qed.

Lemma digit_not_space (c : ascii) : is_digit c = true -> is_space c = false.
Proof.
  unfold is_digit, is_space, in_range. lia.
Qed.

Lemma digit_not_char (c x : ascii) :
  is_digit c = true -> is_digit x = false -> Ascii.eqb c x = false.
Proof.
  intros Hc Hx. apply Ascii.eqb_neq. intros ->. congruence.
Qed.

(** ** Decimal notation *)

Lemma decimal_digits_acc (fuel : nat) (n : Z) (acc : string) :
  decimal_digits fuel n acc = decimal_digits fuel n "" ++ acc.
Proof.
  revert n acc; induction fuel as [|fuel IH]; intros n acc; simpl; [reflexivity|].
  destruct (n <? 10); [reflexivity|].
  rewrite IH, (IH _ (String _ "")), append_assoc. reflexivity.
Qed.

Lemma decimal_digits_more (fuel : nat) (n : Z) (acc : string) :
  0 <= n < 10 ^ Z.of_nat (S fuel) ->
  decimal_digits (S (S fuel)) n acc = decimal_digits (S fuel) n acc.
Proof.
  revert n acc; induction fuel as [|fuel IH]; intros n acc H.
  - change (10 ^ Z.of_nat 1) with 10 in H.
    simpl. destruct (n <? 10) eqn:E; [reflexivity | lia].
  - cbn [decimal_digits]. destruct (n <? 10) eqn:E; [reflexivity|].
    change (decimal_digits (S (S fuel)) (n / 10) (String (digit_char (n mod 10)) acc)
            = decimal_digits (S fuel) (n / 10) (String (digit_char (n mod 10)) acc)).
    apply IH. rewrite Nat2Z.inj_succ, Z.pow_succ_r in H by lia.
    split; [apply Z.div_pos; lia | apply Z.div_lt_upper_bound; lia].
Qed.

Lemma decimal_digits_enough (f g : nat) (n : Z) (acc : string) :
  0 <= n < 10 ^ Z.of_nat (S f) -> (f <= g)%nat ->
  decimal_digits (S g) n acc = decimal_digits (S f) n acc.
Proof.
  intros H Hle. induction Hle as [|g Hle IH]; [reflexivity|].
  rewrite decimal_digits_more; [exact IH|].
  split; [lia|]. apply Z.lt_le_trans with (10 ^ Z.of_nat (S f)); [lia|].
  apply Z.pow_le_mono_r; lia.
Qed.

Lemma decimal_fuel_enough (n : Z) :
  0 <= n -> n < 10 ^ Z.of_nat (S (Z.to_nat (Z.log2 n))).
Proof.
  intros H. rewrite Nat2Z.inj_succ, Z2Nat.id by apply Z.log2_nonneg.
  destruct (Z.eq_dec n 0) as [->|Hn]; [reflexivity|].
  apply Z.lt_le_trans with (2 ^ Z.succ (Z.log2 n)).
  - apply Z.log2_spec; lia.
  - apply Z.pow_le_mono_l. pose proof (Z.log2_nonneg n). lia.
Qed.

Lemma decimal_by_fuel (f : nat) (n : Z) :
  0 <= n < 10 ^ Z.of_nat (S f) -> decimal_digits (S f) n "" = decimal n.
Proof.
  intros H. unfold decimal.
  destruct (Nat.le_ge_cases f (Z.to_nat (Z.log2 n))) as [Hle|Hle].
  - symmetry. now apply decimal_digits_enough.
  - apply decimal_digits_enough; [|exact Hle].
    split; [lia | apply decimal_fuel_enough; lia].
Qed.

Lemma decimal_small (n : Z) : 0 <= n < 10 -> decimal n = str1 (digit_char n).
Proof.
  intros H. rewrite <- (decimal_by_fuel 0) by (change (10 ^ Z.of_nat 1) with 10; lia).
  simpl. destruct (n <? 10) eqn:E; [|lia]. now rewrite Z.mod_small by lia.
Qed.

Lemma decimal_step (n : Z) :
  10 <= n -> decimal n = decimal (n / 10) ++ str1 (digit_char (n mod 10)).
Proof.
  intros H. unfold decimal at 1.
  pose proof (decimal_fuel_enough n ltac:(lia)) as Hn.
  cbn [decimal_digits]. destruct (n <? 10) eqn:E; [lia|].
  rewrite decimal_digits_acc. f_equal.
  assert (Hl : 3 <= Z.log2 n) by (apply Z.log2_le_pow2; [lia | simpl; lia]).
  destruct (Z.to_nat (Z.log2 n)) as [|f] eqn:Ef; [lia|].
  apply decimal_by_fuel.
  rewrite Nat2Z.inj_succ, Z.pow_succ_r in Hn by lia.
  split; [apply Z.div_pos; lia | apply Z.div_lt_upper_bound; lia].
Qed.

Lemma decimal_ind (P : Z -> Prop) :
  (forall n, 0 <= n < 10 -> P n) ->
  (forall n, 10 <= n -> P (n / 10) -> P n) ->
  forall n, 0 <= n -> P n.
Proof.
  intros Hsmall Hstep n Hn.
  apply (Z_lt_induction (fun n => 0 <= n -> P n)); [|exact Hn|exact Hn].
  clear n Hn. intros n IH Hn.
  destruct (Z_lt_le_dec n 10) as [Hs|Hb]; [apply Hsmall; lia|].
  apply Hstep; [exact Hb|].
  assert (0 <= n / 10 < n).
  { split; [apply Z.div_pos; lia | apply Z.div_lt; lia]. }
  apply IH; lia.
Qed.

Lemma decimal_all_digits (n : Z) : 0 <= n -> all_chars is_digit (decimal n) = true.
Proof.
  revert n. apply decimal_ind.
  - intros n H. rewrite decimal_small by exact H. simpl.
    now rewrite is_digit_digit_char.
  - intros n H IH. rewrite decimal_step, all_chars_append, IH by exact H. simpl.
    rewrite is_digit_digit_char; [reflexivity | apply Z.mod_pos_bound; lia].
Qed.

(** The decimal notation starts with a digit. *)
Lemma decimal_head (n : Z) :
  0 <= n -> exists c s, decimal n = String c s /\ is_digit c = true.
Proof.
  intros H. pose proof (decimal_all_digits n H) as Hd.
  destruct (decimal n) as [|c s] eqn:E.
  - exfalso. revert E. unfold decimal. cbn [decimal_digits].
    destruct (n <? 10); [discriminate|].
    rewrite decimal_digits_acc. destruct (decimal_digits _ _ ""); discriminate.
  - simpl in Hd. apply andb_true_iff in Hd. now exists c, s.
Qed.

(** ** [parseInt] *)

Lemma parse_digits_append (s1 s2 : string) (acc : option Z) :
  all_chars is_digit s1 = true ->
  parse_digits (s1 ++ s2) acc = parse_digits s2 (parse_digits s1 acc).
Proof.
  revert acc; induction s1 as [|c s1 IH]; intros acc H; simpl in *; [reflexivity|].
  apply andb_true_iff in H as [Hc Hs]. rewrite Hc. now apply IH.
Qed.

Lemma parse_digits_decimal (n : Z) :
  0 <= n -> parse_digits (decimal n) None = Some n.
Proof.
  revert n. apply decimal_ind.
  - intros n H. rewrite decimal_small by exact H. simpl.
    now rewrite is_digit_digit_char, digit_val_digit_char.
  - intros n H IH.
    rewrite decimal_step, parse_digits_append, IH
      by (try apply decimal_all_digits; try apply Z.div_pos; lia).
    pose proof (Z.mod_pos_bound n 10 ltac:(lia)).
    simpl. rewrite is_digit_digit_char, digit_val_digit_char by lia.
    f_equal. pose proof (Z.div_mod n 10 ltac:(lia)). lia.
Qed.

(** A zero read before the digits does not change their value. *)
Lemma parse_digits_zero (c : ascii) (s : string) :
  is_digit c = true ->
  parse_digits (String c s) (Some 0) = parse_digits (String c s) None.
Proof. intros H. simpl. now rewrite H. Qed.

(** *** Integers that doubles hold exactly *)

Lemma two53_power : two53 = 2 ^ 53.
Proof. reflexivity. Qed.

Lemma round_double_safe (x : Z) : Z.abs x <= two53 -> round_double x = x.
Proof.
  intros H. unfold round_double. destruct (Z.abs x <=? two53) eqn:E; [reflexivity|].
  apply Z.leb_gt in E. lia.
Qed.

Lemma add_safe (x y : Z) : Z.abs (x + y) <= two53 -> add x y = x + y.
Proof. apply round_double_safe. Qed.

Lemma sub_safe (x y : Z) : Z.abs (x - y) <= two53 -> sub x y = x - y.
Proof. apply round_double_safe. Qed.

Lemma mul_safe (x y : Z) : Z.abs (x * y) <= two53 -> mul x y = x * y.
Proof. apply round_double_safe. Qed.

Lemma magnitude_safe (a : Z) : a <= two53 -> magnitude a = decimal a.
Proof.
  intros H. unfold magnitude. destruct (a <=? two53) eqn:E; [reflexivity|].
  apply Z.leb_gt in E. lia.
Qed.

Lemma number_to_string_safe (n : Z) :
  0 <= n <= two53 -> number_to_string n = decimal n.
Proof.
  intros H. unfold number_to_string. destruct (n <? 0) eqn:E; [lia|].
  apply magnitude_safe. lia.
Qed.

Lemma numeral_safe (n : Z) : 0 <= n <= two53 -> numeral n = Ok n.
Proof.
  intros H. unfold numeral.
  assert (E : (n <? 10 ^ 20) = true).
  { apply Z.ltb_lt. apply Z.le_lt_trans with two53; [lia | reflexivity]. }
  rewrite E. cbn [orb]. now rewrite round_double_safe by lia.
Qed.

Lemma parseInt_string_digits (c : ascii) (s : string) :
  is_digit c = true ->
  parseInt_string (String c s)
  = match parse_digits (String c s) None with
    | Some n => (d <- numeral n ;; Ok (Some (1 * d)))
    | None => Ok None
    end.
Proof.
  intros H. unfold parseInt_string. cbn [skip_spaces].
  rewrite (digit_not_space c H).
  assert (Hm : Ascii.eqb c "-" = false) by (now apply digit_not_char).
  assert (Hp : Ascii.eqb c "+" = false) by (now apply digit_not_char).
  each_char c; try discriminate; reflexivity.
Qed.

Lemma parseInt_decimal (n : Z) :
  0 <= n <= two53 -> parseInt_string (decimal n) = Ok (Some n).
Proof.
  intros H. destruct (decimal_head n ltac:(lia)) as (c & s & E & Hc).
  rewrite E, parseInt_string_digits, <- E by exact Hc.
  rewrite parse_digits_decimal, numeral_safe by lia. cbn [bind].
  now rewrite Z.mul_1_l.
Qed.

Lemma parseInt_number (n : Z) :
  0 <= n <= two53 -> parseInt (VNum n) = Ok (Some n).
Proof.
  intros H. unfold parseInt. cbn [to_string bind].
  rewrite number_to_string_safe by exact H. now apply parseInt_decimal.
Qed.

Lemma parseInt_pad2 (n : Z) :
  0 <= n <= two53 -> parseInt (VStr (pad2 n)) = Ok (Some n).
Proof.
  intros H. unfold parseInt, pad2. cbn [to_string bind].
  rewrite number_to_string_safe by exact H.
  destruct (n <? 10); [|now apply parseInt_decimal].
  change ("0" ++ decimal n) with (String "0" (decimal n)).
  rewrite parseInt_string_digits by reflexivity.
  destruct (decimal_head n ltac:(lia)) as (c & s & Ed & Hc).
  change (parse_digits (String "0" (decimal n)) None)
    with (parse_digits (decimal n) (Some 0)).
  rewrite Ed, parse_digits_zero, <- Ed by exact Hc.
  rewrite parse_digits_decimal, numeral_safe by lia. cbn [bind].
  now rewrite Z.mul_1_l.
Qed.

(** ** [split] *)

Lemma all_chars_impl (p q : ascii -> bool) (s : string) :
  (forall c, p c = true -> q c = true) ->
  all_chars p s = true -> all_chars q s = true.
Proof.
  intros Hpq. induction s as [|c s IH]; simpl; [reflexivity|].
  rewrite !andb_true_iff. intros [Hc Hs]. auto.
Qed.

Lemma split_at_free (sep : ascii) (s cur : string) :
  free_of sep s = true -> split_at sep s cur = [cur ++ s].
Proof.
  revert cur; induction s as [|c s IH]; intros cur H; simpl in *.
  - now rewrite append_nil_r.
  - apply andb_true_iff in H as [Hc Hs]. apply negb_true_iff in Hc.
    rewrite Hc, IH, append_assoc by exact Hs. reflexivity.
Qed.

Lemma split_at_sep (sep : ascii) (s1 rest cur : string) :
  free_of sep s1 = true ->
  split_at sep (s1 ++ String sep rest) cur = (cur ++ s1) :: split_at sep rest "".
Proof.
  revert cur; induction s1 as [|c s1 IH]; intros cur H; simpl in *.
  - now rewrite Ascii.eqb_refl, append_nil_r.
  - apply andb_true_iff in H as [Hc Hs]. apply negb_true_iff in Hc.
    rewrite Hc, IH, append_assoc by exact Hs. reflexivity.
Qed.

Lemma digits_free_of_colon (s : string) :
  all_chars is_digit s = true -> free_of ":" s = true.
Proof.
  apply all_chars_impl. intros c H. apply negb_true_iff.
  now apply digit_not_char.
Qed.

Lemma pad2_all_digits (n : Z) :
  0 <= n <= two53 -> all_chars is_digit (pad2 n) = true.
Proof.
  intros H. unfold pad2. rewrite number_to_string_safe by exact H.
  destruct (n <? 10); simpl; apply decimal_all_digits; lia.
Qed.

Lemma split_hms (h m s : Z) :
  0 <= h <= two53 -> 0 <= m <= two53 -> 0 <= s <= two53 ->
  split ":" (pad2 h ++ ":" ++ pad2 m ++ ":" ++ pad2 s) = [pad2 h; pad2 m; pad2 s].
Proof.
  intros Hh Hm Hs. unfold split.
  change (":" ++ pad2 m ++ ":" ++ pad2 s)
    with (String ":" (pad2 m ++ String ":" (pad2 s))).
  rewrite !split_at_sep, split_at_free
    by (apply digits_free_of_colon, pad2_all_digits; assumption).
  reflexivity.
Qed.

(** ** Time conversions *)

(** The hours, minutes and seconds of [b] seconds. *)
Lemma time_components (b : Z) :
  0 <= b <= two53 ->
  let h := b / 3600 in
  let m := (b - h * 3600) / 60 in
  let s := b - h * 3600 - m * 60 in
  (0 <= h <= b /\ 0 <= h * 3600 <= b)
  /\ (0 <= m < 60 /\ 0 <= b - h * 3600 < 3600)
  /\ 0 <= s < 60.
Proof.
  intros H h m s.
  pose proof (Z.mul_div_le b 3600 ltac:(lia)) as H1.
  pose proof (Z.mod_pos_bound b 3600 ltac:(lia)) as H2.
  rewrite Z.mod_eq in H2 by lia.
  assert (Hh : 0 <= h) by (apply Z.div_pos; lia).
  fold h in H1, H2.
  assert (Hr : 0 <= b - h * 3600 < 3600) by lia.
  pose proof (Z.mul_div_le (b - h * 3600) 60 ltac:(lia)) as H3.
  pose proof (Z.mod_pos_bound (b - h * 3600) 60 ltac:(lia)) as H4.
  rewrite Z.mod_eq in H4 by lia. fold m in H3, H4.
  assert (Hm : 0 <= m < 60).
  { split; [apply Z.div_pos; lia | apply Z.div_lt_upper_bound; lia]. }
  unfold s. repeat split; lia.
Qed.

Lemma floor_div_safe (a b : Z) :
  Z.abs a <= two53 -> 0 < b <= two53 -> floor_div a b = Ok (a / b).
Proof.
  intros Ha [Hb Hb']. unfold floor_div.
  apply Z.leb_le in Ha, Hb'. apply Z.ltb_lt in Hb. now rewrite Ha, Hb, Hb'.
Qed.

Lemma secToStr_number (b : Z) :
  0 <= b <= two53 ->
  secToStr (VNum b)
  = Ok (pad2 (b / 3600) ++ ":" ++ pad2 ((b - b / 3600 * 3600) / 60)
        ++ ":" ++ pad2 (b - b / 3600 * 3600 - (b - b / 3600 * 3600) / 60 * 60)).
Proof.
  intros H. destruct (time_components b H) as ((Hh & Hh') & (Hm & Hr) & Hs).
  assert (H60 : 60 <= two53) by (now apply Z.leb_le).
  assert (H3600 : 3600 <= two53) by (now apply Z.leb_le).
  unfold secToStr. rewrite parseInt_number by exact H. cbn [bind].
  rewrite floor_div_safe by lia. cbn [bind].
  rewrite (mul_safe (b / 3600)) by lia.
  rewrite (sub_safe b) by lia.
  rewrite floor_div_safe by lia. cbn [bind].
  rewrite mul_safe by lia. rewrite sub_safe by lia. reflexivity.
Qed.

(** The round trip of [secToStr] and [strToSec], up to [2^53] seconds. *)
Lemma roundtrip_seconds (b : Z) :
  0 <= b <= two53 -> (hms <- secToStr (VNum b) ;; strToSec hms) = Ok b.
Proof.
  intros H. rewrite secToStr_number by exact H. cbn [bind].
  destruct (time_components b H) as ((Hh & Hh') & (Hm & Hr) & Hs).
  set (h := b / 3600) in *. set (m := (b - h * 3600) / 60) in *.
  set (s := b - h * 3600 - m * 60) in *.
  unfold strToSec. rewrite split_hms by lia.
  cbn [element nth_error]. rewrite !parseInt_pad2 by lia.
  cbn [bind or_zero].
  rewrite (mul_safe h), (mul_safe m) by lia.
  rewrite (add_safe (h * 3600)) by lia. rewrite add_safe by (unfold s; lia).
  f_equal. unfold s. lia.
Qed.

(** C7 (as amended): for every integer [b] from [0] to [2^53],
    [strToSec(secToStr(b)) = b]: formatting [b] seconds as a zero-padded
    [HH:MM:SS] string and parsing it back yields [b]. *)
Theorem strToSec_secToStr (b : Z) :
  0 <= b <= 2 ^ 53 -> (hms <- secToStr (VNum b) ;; strToSec hms) = Ok b.
Proof. rewrite <- two53_power. apply roundtrip_seconds. Qed.

Lemma strToSec_secToStr_witness :
  (hms <- secToStr (VNum 86399) ;; strToSec hms) = Ok 86399.
Proof. apply (strToSec_secToStr 86399). split; [lia | now apply Z.leb_le]. Defined.

(** From [10^21] a number prints in exponent notation, of which
    [parseInt] reads the digits before the [e]: [secToStr(1e21)] is
    ["00:00:01"], which reads back as one second. *)
Lemma strToSec_secToStr_1e21 :
  to_string (VNum (10 ^ 21)) = Ok "1e+21"
  /\ secToStr (VNum (10 ^ 21)) = Ok "00:00:01"
  /\ (hms <- secToStr (VNum (10 ^ 21)) ;; strToSec hms) = Ok 1
  /\ 10 ^ 21 <> 1.
Proof. repeat split; try (vm_compute; reflexivity). discriminate. Qed.

(** ** [ensureStartsWith] *)

Lemma len_nonneg (s : string) : 0 <= len s.
Proof. unfold len. lia. Qed.

Lemma insertStr_front (s t : string) : insertStr s t 0 = t ++ s.
Proof.
  unfold insertStr, substr, substr_from. pose proof (len_nonneg s).
  replace (Z.min 0 (len s)) with 0 by lia.
  cbn [Z.ltb Z.compare Z.to_nat].
  assert (E : Z.to_nat (Z.min (Z.max 0 0) (len s - 0)) = 0%nat) by lia.
  now rewrite E, take_0, drop_0.
Qed.

Lemma startsWith_front (s t : string) :
  Lodash.startsWith (t ++ s) t (Some 0) = true.
Proof.
  unfold Lodash.startsWith, slice.
  pose proof (len_nonneg (t ++ s)). pose proof (len_nonneg t).
  replace (Z.max 0 (Z.min 0 (len (t ++ s)))) with 0 by lia.
  assert (Hl : len (t ++ s) = len t + len s).
  { unfold len. rewrite length_append. lia. }
  pose proof (len_nonneg s).
  cbn [Z.ltb Z.compare]. destruct (0 + len t <? 0) eqn:E; [lia|].
  replace (Z.min 0 (len (t ++ s))) with 0 by lia.
  replace (Z.min (0 + len t) (len (t ++ s)) - 0) with (len t) by lia.
  unfold len at 1. rewrite Nat2Z.id. cbn [Z.to_nat].
  rewrite drop_0, take_append. apply String.eqb_refl.
Qed.

Lemma ensureStartsWith_idempotent (s : option string) (t : string) :
  ensureStartsWith (Some (ensureStartsWith s t None)) t None
  = ensureStartsWith s t None.
Proof.
  unfold ensureStartsWith at 2 3.
  set (str := match s with Some x => x | None => "" end).
  destruct (Lodash.startsWith str t (Some 0)) eqn:E.
  - unfold ensureStartsWith. now rewrite E.
  - rewrite insertStr_front. unfold ensureStartsWith.
    now rewrite startsWith_front.
Qed.

(** C8: for every string [s],
    [ensureStartsWith(ensureStartsWith(s, "x"), "x") = ensureStartsWith(s, "x")]. *)
Theorem ensureStartsWith_x_idempotent (s : string) :
  ensureStartsWith (Some (ensureStartsWith (Some s) "x" None)) "x" None
  = ensureStartsWith (Some s) "x" None.
Proof. apply ensureStartsWith_idempotent. Qed.

(** ** [toByteUnits] *)

(** Below 1024 the loop stops at the [KB] entry and formats with the [byte]
    entry before it: the count gets two decimals and no plural. *)
Lemma toByteUnits_below_1024 (b : Z) :
  0 <= b < 1024 -> toByteUnits (VNum b) = Ok (decimal b ++ ".00 byte").
Proof.
  intros H. assert (H53 : 1024 <= two53) by (now apply Z.leb_le).
  unfold toByteUnits. rewrite parseInt_number by lia. cbn [bind]. f_equal.
  rewrite Z.abs_eq by lia. unfold def. cbn [units_loop].
  destruct (b <? 1024) eqn:E; [|lia].
  unfold toFixed2.
  replace ((200 * b + 1) / (2 * 1)) with (b * 100)
    by (apply Z.div_unique with (r := 1); lia).
  assert (E1 : b * 100 / 100 = b) by (apply Z.div_mul; lia).
  assert (E2 : b * 100 / 10 mod 10 = 0).
  { replace (b * 100) with (b * 10 * 10) by lia.
    rewrite Z.div_mul by lia. apply Z.mod_mul; lia. }
  assert (E3 : (b * 100) mod 10 = 0).
  { replace (b * 100) with (b * 10 * 10) by lia. apply Z.mod_mul; lia. }
  rewrite E1, E2, E3, number_to_string_safe by lia.
  now rewrite !append_assoc.
Qed.

(** C1: [toByteUnits(512)] evaluates to ["512.00 byte"], with two decimals
    and the singular unit word, where the integer count ["512 bytes"] is
    expected; [toByteUnits(1536)] is ["1.50 KB"]. *)
Theorem toByteUnits_512_and_1536 :
  toByteUnits (VNum 512) = Ok "512.00 byte"
  /\ toByteUnits (VNum 1536) = Ok "1.50 KB".
Proof. split; reflexivity. Qed.

(** The plural form is reached only from a terabyte upwards. *)
Lemma toByteUnits_terabyte :
  toByteUnits (VNum 1099511627776) = Ok "1099511627776 bytes".
Proof. reflexivity. Qed.

(** ** Properties of objects *)

Lemma lookup_put_same (k : string) (x : value) (ps : props) :
  lookup k (put k x ps) = Some x.
Proof.
  induction ps as [|[k' v] ps IH]; simpl.
  - now rewrite String.eqb_refl.
  - destruct (k' =? k)%string eqn:E; simpl.
    + now rewrite String.eqb_refl.
    + destruct (goes_before k k'); simpl.
      * now rewrite String.eqb_refl.
      * now rewrite E.
Qed.

Lemma lookup_put_other (k k' : string) (x : value) (ps : props) :
  k' <> k -> lookup k' (put k x ps) = lookup k' ps.
Proof.
  intros Hne. apply String.eqb_neq in Hne.
  assert (Hne' : (k =? k')%string = false) by (now rewrite String.eqb_sym).
  induction ps as [|[k0 v] ps IH]; simpl.
  - now rewrite Hne'.
  - destruct (k0 =? k)%string eqn:E; simpl.
    + apply String.eqb_eq in E. subst k0. now rewrite Hne'.
    + destruct (goes_before k k0); simpl.
      * now rewrite Hne'.
      * now rewrite IH.
Qed.

Lemma lookup_in_keys {A : Type} (k : string) (ps : list (string * A)) :
  In k (map fst ps) -> exists v, lookup k ps = Some v.
Proof.
  induction ps as [|[k' v] ps IH]; simpl; [tauto|].
  destruct (String.eqb_spec k' k) as [->|Hne]; [now exists v|].
  intros [H|H]; [contradiction | now apply IH].
Qed.

Lemma lookup_not_in_keys {A : Type} (k : string) (ps : list (string * A)) :
  ~ In k (map fst ps) -> lookup k ps = None.
Proof.
  induction ps as [|[k' v] ps IH]; simpl; [reflexivity|].
  intros H. destruct (String.eqb_spec k' k) as [->|Hne]; [tauto|].
  apply IH. tauto.
Qed.

Lemma is_container_cases (v : value) :
  is_container v = true ->
  (exists ps, v = VObject ps) \/ (exists n ps, v = VArray n ps).
Proof.
  destruct v as [| |b|n|s|ps|n ps]; try discriminate.
  - now destruct b.
  - unfold is_container. simpl. now rewrite andb_false_r.
  - unfold is_container. simpl. now rewrite andb_false_r.
  - intros _. left. now exists ps.
  - intros _. right. now exists n, ps.
Qed.

(** Induction on values, with the property for every property value of
    an object or an array. *)
Lemma value_induction (P : value -> Prop) :
  P VUndefined -> P VNull -> (forall b, P (VBool b)) -> (forall n, P (VNum n)) ->
  (forall s, P (VStr s)) ->
  (forall ps, Forall (fun kv => P (snd kv)) ps -> P (VObject ps)) ->
  (forall n ps, Forall (fun kv => P (snd kv)) ps -> P (VArray n ps)) ->
  forall v, P v.
Proof.
  intros Hu Hn Hb Hz Hs Ho Ha.
  refine (fix IH (v : value) : P v :=
            match v with
            | VUndefined => Hu
            | VNull => Hn
            | VBool b => Hb b
            | VNum n => Hz n
            | VStr s => Hs s
            | VObject ps => Ho ps _
            | VArray n ps => Ha n ps _
            end);
    (induction ps as [|[k x] ps IHps]; constructor; [apply IH | exact IHps]).
Qed.

Lemma to_string_array (n : Z) (ps : props) :
  to_string (VArray n ps)
  = if has_key "toString" ps then Throw TypeError None
    else if has_key "join" ps then Ok "[object Array]"
    else
      (parts <- in_order (map (fun i =>
                                 match lookup (decimal (Z.of_nat i))
                                              (element_strings ps) with
                                 | Some r => r
                                 | None => Ok ""
                                 end)
                              (seq 0 (Z.to_nat n))) ;;
       Ok (join "," parts)).
Proof. reflexivity. Qed.

Lemma in_order_converts (rs : list (result string)) :
  Forall converts rs ->
  (exists parts, in_order rs = Ok parts) \/ in_order rs = Throw TypeError None.
Proof.
  induction 1 as [|r rs Hr _ IH]; [left; now exists []|].
  cbn [in_order]. destruct Hr as [[s ->]| ->]; [|now right]. cbn [bind].
  destruct IH as [[parts ->]| ->]; [left; now eexists | now right].
Qed.

(** [ToString] returns or throws a [TypeError]; it never leaves the
    model. *)
Lemma to_string_converts (v : value) : converts (to_string v).
Proof.
  induction v as [| |[]|n|s|ps IH|n ps IH] using value_induction;
    try (left; eexists; reflexivity).
  - cbn [to_string]. destruct (has_key _ ps); [now right | left; now eexists].
  - rewrite to_string_array.
    destruct (has_key "toString" ps); [now right|].
    destruct (has_key "join" ps); [left; now eexists|].
    assert (H : Forall converts
                  (map (fun i => match lookup (decimal (Z.of_nat i))
                                              (element_strings ps) with
                                 | Some r => r
                                 | None => Ok ""
                                 end)
                       (seq 0 (Z.to_nat n)))).
    { apply Forall_forall. intros r Hr. apply in_map_iff in Hr as (i & <- & _).
      induction IH as [|[k x] qs Hx _ IHq]; cbn [element_strings lookup].
      - left. now eexists.
      - destruct (k =? _)%string; [|exact IHq].
        destruct x; try exact Hx; left; now eexists. }
    destruct (in_order_converts _ H) as [[parts ->]| ->];
      [left; now eexists | now right].
Qed.

Lemma to_string_throws (v : value) (c : exn_class) (m : option string) :
  to_string v = Throw c m -> c = TypeError /\ m = None.
Proof.
  destruct (to_string_converts v) as [[s ->]| ->]; [discriminate|].
  intros H. injection H as <- <-. now split.
Qed.

Lemma has_key_put (k : string) (x : value) (ps : props) :
  has_key k (put k x ps) = true.
Proof. unfold has_key. now rewrite lookup_put_same. Qed.

(** A write that returns is no call of the setter of [__proto__]. *)
Ltac no_setter H :=
  match type of H with
  | context [calls_setter ?k ?ps] =>
      destruct (calls_setter k ps); [discriminate H|]
  end.

(** Reading back the slot that was written. *)
Lemma get_set_same (t t' : value) (k : string) (x : value) :
  set t k x = Ok t' -> (is_array t = true -> k <> "length") ->
  get t' k = Ok x.
Proof.
  destruct t as [| |b|n|s|ps|n ps]; try discriminate; simpl;
    try (destruct (k =? "__proto__")%string; discriminate).
  - intros H _. no_setter H. injection H as <-. simpl.
    now rewrite lookup_put_same.
  - intros H Hk. specialize (Hk eq_refl). apply String.eqb_neq in Hk.
    rewrite Hk in H. no_setter H. injection H as <-. simpl.
    now rewrite Hk, lookup_put_same.
Qed.

(** Writing a slot leaves the other slots as they are. *)
Lemma get_set_other (t t' : value) (p k : string) (x : value) :
  set t p x = Ok t' -> k <> p ->
  (is_array t = true -> p <> "length" /\ k <> "length") ->
  get t' k = get t k.
Proof.
  destruct t as [| |b|n|s|ps|n ps]; try discriminate; simpl;
    try (destruct (p =? "__proto__")%string; discriminate).
  - intros H Hne _. no_setter H. injection H as <-. simpl.
    now rewrite lookup_put_other.
  - intros H Hne Hk. destruct (Hk eq_refl) as [Hp Hkl].
    apply String.eqb_neq in Hp, Hkl.
    rewrite Hp in H. no_setter H. injection H as <-. simpl.
    now rewrite Hkl, lookup_put_other.
Qed.

Lemma set_is_array (t t' : value) (p : string) (x : value) :
  set t p x = Ok t' -> is_array t' = is_array t.
Proof.
  destruct t as [| |b|n|s|ps|n ps]; try discriminate; simpl;
    try (destruct (p =? "__proto__")%string; discriminate).
  - intros H. no_setter H. now injection H as <-.
  - destruct (p =? "length")%string.
    + unfold set_length.
      destruct x as [| |b|m|s|qs|m qs]; try discriminate;
        match goal with |- context [if ?c then _ else _] => destruct c end;
        try discriminate; now intros H; injection H as <-.
    + intros H. no_setter H. now injection H as <-.
Qed.

(** ** [getErrorMessage] *)

(** C3: [typeof null] is ["object"], so a response whose [data.error] is
    [null], and the input [null] itself, make [getErrorMessage] read a
    property of [null]: the call throws a [TypeError]. *)
Theorem getErrorMessage_null_throws :
  getErrorMessage (VObject [("data", VObject [("error", VNull)])])
  = Throw TypeError None
  /\ getErrorMessage VNull = Throw TypeError None.
Proof. split; reflexivity. Qed.

Lemma getErrorMessage_non_object (res : value) :
  is_object_type res = false -> getErrorMessage res = Ok res.
Proof. intros H. unfold getErrorMessage. now rewrite H. Qed.

Lemma getErrorMessage_nested_message :
  getErrorMessage
    (VObject [("data", VObject [("error", VObject [("message", VStr "boom")])])])
  = Ok (VStr "boom").
Proof. reflexivity. Qed.

Lemma absent_returns (k : string) :
  inherited k = false -> absent k = Ok VUndefined.
Proof. intros H. unfold absent. now rewrite H. Qed.

(** A name that no prototype defines can be read from any value but
    [null] and [undefined]. *)
Lemma get_truthy (v : value) (k : string) :
  inherited k = false -> truthy v = true -> exists x, get v k = Ok x.
Proof.
  intros Hk.
  destruct v as [| |b|n|s|ps|n ps]; try discriminate; intros _; simpl;
    rewrite ?(absent_returns k Hk).
  - eexists; reflexivity.
  - eexists; reflexivity.
  - destruct (k =? "length")%string; [eexists; reflexivity|].
    destruct (index_of_key k); [destruct (String.get _ s)|]; eexists; reflexivity.
  - destruct (lookup k ps); eexists; reflexivity.
  - destruct (k =? "length")%string; [|destruct (lookup k ps)];
      eexists; reflexivity.
Qed.

Lemma get_object (v : value) (k : string) :
  inherited k = false -> is_container v = true -> exists x, get v k = Ok x.
Proof.
  intros Hk H. apply get_truthy; [exact Hk|].
  unfold is_container in H. now apply andb_true_iff in H as [H _].
Qed.

(** The two reads of a property of [null] are the only way to throw. *)
Lemma getErrorMessage_returns (res : value) :
  res <> VNull ->
  (forall data, get res "data" = Ok data -> get data "error" <> Ok VNull) ->
  exists v, getErrorMessage res = Ok v.
Proof.
  intros Hres Hdata. unfold getErrorMessage.
  destruct (is_object_type res) eqn:Eo; [|now exists res].
  assert (Hc : is_container res = true).
  { unfold is_container. rewrite Eo, andb_true_r.
    destruct res; try discriminate; try reflexivity. congruence. }
  destruct (get_object res "message" eq_refl Hc) as [message ->]. cbn [bind].
  destruct (truthy message); [now exists message|].
  destruct (get_object res "data" eq_refl Hc) as [data Ed]. rewrite Ed. cbn [bind].
  destruct (get_object res "statusText" eq_refl Hc) as [statusText Est].
  destruct (get_object res "status" eq_refl Hc) as [status Es].
  assert (Htail : exists v,
             (statusText <- get res "statusText" ;;
              if truthy statusText then Ok statusText
              else status <- get res "status" ;;
                   if truthy status then Ok status else Ok res) = Ok v).
  { rewrite Est. cbn [bind]. destruct (truthy statusText); [now eexists|].
    rewrite Es. cbn [bind]. destruct (truthy status); now eexists. }
  destruct (truthy data) eqn:Etd; [|exact Htail].
  destruct (get_truthy data "message" eq_refl Etd) as [dm ->]. cbn [bind].
  destruct (truthy dm); [now exists dm|].
  destruct (get_truthy data "error" eq_refl Etd) as [de Ede]. rewrite Ede. cbn [bind].
  destruct (typeof de =? "string")%string; [now exists de|].
  destruct (is_object_type de) eqn:Eod; [|exact Htail].
  assert (Hcd : is_container de = true).
  { unfold is_container. rewrite Eod, andb_true_r.
    destruct de; try discriminate; try reflexivity.
    exfalso. now apply (Hdata data Ed). }
  destruct (get_object de "message" eq_refl Hcd) as [em ->]. cbn [bind].
  destruct (truthy em); [now exists em | exact Htail].
Qed.

(** ** [slugify] *)

Example slugify_default :
  slugify ("H" ++ String (ascii_of_nat 233) "llo World!") VUndefined VUndefined
  = Ok "hello-world".
Proof. reflexivity. Qed.

Example slugify_min_and_max :
  slugify "hello world abcdefgh" (VNum 2) (VNum 3)
  = Ok "hel-lo-wor-ld-abc-def-gh"
  /\ slugify "hello world abcdefgh" (VNum 6) VUndefined = Ok "abcdefgh"
  /\ slugify "hello" (VNum 6) (VNum 3) = Throw SyntaxError None.
Proof. repeat split. Qed.

(** C5: with [min] passed as [null] the pattern is [[a-z0-9]{,max}], in
    which [{,max}] is not a quantifier but literal text: no run of
    ["hello world"] is extracted, where ["hello-world"] is expected. *)
Theorem slugify_null_min_extracts_nothing :
  slugify "hello world" VNull (VNum 5) = Ok ""
  /\ slugify "a{,5} b{,5}" VNull (VNum 5) = Ok "a{,5}-b{,5}".
Proof. split; reflexivity. Qed.

Lemma digit_plain (c : ascii) : is_digit c = true -> is_syntax_char c = false.
Proof. each_char c; try discriminate; reflexivity. Qed.

Lemma RegExp_null_min (max : Z) :
  0 < max ->
  RegExp ("[a-z0-9]{," ++ decimal max ++ "}")
  = Ok (Followed ("{," ++ decimal max ++ "}")).
Proof.
  intros H. unfold RegExp.
  change (starts "[a-z0-9]" ("[a-z0-9]{," ++ decimal max ++ "}")) with true.
  assert (Hp : all_chars (fun c => negb (is_syntax_char c))
                 (String "," (decimal max)) = true).
  { cbn [all_chars]. change (negb (is_syntax_char ",")) with true. cbn [andb].
    apply all_chars_impl with (p := is_digit).
    - intros c Hc. now rewrite digit_plain.
    - apply decimal_all_digits. lia. }
  change (drop 8 ("[a-z0-9]{," ++ decimal max ++ "}"))
    with (String "{" (String "," (decimal max) ++ "}")).
  cbv beta iota. unfold brace_body.
  remember (String "," (decimal max)) as body eqn:Eb.
  rewrite length_append. change (String.length "}") with 1%nat.
  rewrite Nat.add_sub, drop_append, take_append, Hp.
  cbn [Ascii.eqb Bool.eqb andb String.eqb]. subst body. reflexivity.
Qed.

Lemma match_all_needs_brace (fuel : nat) (text s : string) :
  free_of "{" s = true -> match_all fuel (Followed (String "{" text)) s = [].
Proof.
  revert s; induction fuel as [|fuel IH]; intros s H; [reflexivity|].
  destruct s as [|c s]; [reflexivity|].
  cbn [free_of all_chars] in H. apply andb_true_iff in H as [_ Hs].
  cbn [match_all exec_here].
  assert (E : starts (String "{" text) s = false).
  { destruct s as [|d s]; [reflexivity|]. cbn [starts].
    cbn [free_of all_chars] in Hs. apply andb_true_iff in Hs as [Hd _].
    apply negb_true_iff in Hd. rewrite Ascii.eqb_sym in Hd. now rewrite Hd. }
  rewrite E, andb_false_r. now apply IH.
Qed.

Lemma deburr_lower_char_brace (c : ascii) :
  negb (Ascii.eqb c "{") = true ->
  free_of "{" (Lodash.deburr_char (lower_char c)) = true.
Proof. each_char c; try discriminate; reflexivity. Qed.

Lemma deburr_lower_brace (s : string) :
  free_of "{" s = true -> free_of "{" (Lodash.deburr (toLowerCase s)) = true.
Proof.
  unfold free_of. induction s as [|c s IH]; [reflexivity|].
  cbn [all_chars toLowerCase Lodash.deburr]. rewrite andb_true_iff.
  intros [Hc Hs]. rewrite all_chars_append, IH by exact Hs.
  pose proof (deburr_lower_char_brace c Hc) as H0. unfold free_of in H0.
  now rewrite H0.
Qed.

(** With [min = null] nothing is extracted from a text without [{]. *)
Lemma slugify_null_min_empty (str : string) (max : Z) :
  str <> "" -> 0 < max <= two53 -> free_of "{" str = true ->
  slugify str VNull (VNum max) = Ok "".
Proof.
  intros Hstr Hmax Hfree. unfold slugify.
  assert (Ht : truthy (VStr str) = true).
  { simpl. apply negb_true_iff, String.eqb_neq, Hstr. }
  assert (Hm : truthy (VNum max) = true).
  { simpl. apply negb_true_iff, Z.eqb_neq. lia. }
  rewrite Ht, Hm. cbn [truthy negb andb is_null to_string bind].
  rewrite number_to_string_safe by lia.
  rewrite RegExp_null_min by lia. cbn [bind]. unfold Lodash.words.
  change ("{," ++ decimal max ++ "}") with (String "{" ("," ++ decimal max ++ "}")).
  now rewrite match_all_needs_brace by (now apply deburr_lower_brace).
Qed.

Lemma RegExp_throws_only_SyntaxError (pattern : string) (c : exn_class)
  (m : option string) :
  RegExp pattern = Throw c m -> c = SyntaxError /\ m = None.
Proof.
  unfold RegExp. destruct (starts _ pattern); [|discriminate].
  destruct (brace_body _); [|discriminate].
  destruct (cut_at_comma _ _) as [a [b|]].
  - destruct (is_number a && (b =? "")%string); [discriminate|].
    destruct (is_number a && is_number b); [|discriminate].
    destruct (_ <=? _); [discriminate|].
    intros H. injection H as <- <-. now split.
  - destruct (is_number a); discriminate.
Qed.

(** C6 (as amended): for a non-empty [str], [slugify(str, min, max)] raises
    its [RangeError] exactly when [min] is falsy but not [null] and [max] is
    truthy. *)
Theorem slugify_bad_arguments (str : string) (min max : value) :
  str <> "" ->
  (slugify str min max = bad_arguments
   <-> truthy min = false /\ is_null min = false /\ truthy max = true).
Proof.
  intros Hstr. unfold slugify, bad_arguments.
  assert (Ht : truthy (VStr str) = true).
  { simpl. apply negb_true_iff, String.eqb_neq, Hstr. }
  rewrite Ht.
  assert (Hno : forall p,
             (rx <- RegExp p ;;
              Ok (join "-" (Lodash.words (Lodash.deburr (toLowerCase str)) rx)))
             <> Throw RangeError (Some "Bad arguments passed in _.slugify()")).
  { intros p. destruct (RegExp p) as [rx|c m| |] eqn:E; simpl; try discriminate.
    apply RegExp_throws_only_SyntaxError in E as [-> ->]. discriminate. }
  destruct (truthy min) eqn:Emin, (truthy max) eqn:Emax; cbn [negb andb].
  - split; [|intros (H & _); discriminate].
    destruct (to_string_converts min) as [[a ->]| ->]; [|discriminate].
    destruct (to_string_converts max) as [[b ->]| ->]; [|discriminate].
    cbn [bind]. intros H. now apply Hno in H.
  - split; [|intros (H & _); discriminate].
    destruct (to_string_converts min) as [[a ->]| ->]; [|discriminate].
    cbn [bind]. intros H. now apply Hno in H.
  - destruct (is_null min) eqn:En.
    + split; [|intros (_ & H & _); discriminate].
      destruct (to_string_converts max) as [[b ->]| ->]; [|discriminate].
      cbn [bind]. intros H. now apply Hno in H.
    + split; [now intros _ | reflexivity].
  - split; [discriminate | intros (_ & _ & H); discriminate].
Qed.

Lemma slugify_bad_arguments_witness :
  slugify "abc" VUndefined (VNum 3) = bad_arguments.
Proof.
  apply (slugify_bad_arguments "abc" VUndefined (VNum 3)).
  - discriminate.
  - repeat split.
Defined.

(** A falsy [min] that is not [null] with [max] absent takes the first
    branch: the default pattern is used and nothing is raised. *)
Lemma slugify_zero_min_absent_max :
  truthy (VNum 0) = false /\ is_null (VNum 0) = false
  /\ slugify "abc" (VNum 0) VUndefined = Ok "abc"
  /\ is_throw RangeError (slugify "abc" (VNum 0) VUndefined) = false.
Proof. repeat split. Qed.

(** ** [checkSubject] *)












(** A value that does not convert to a string makes the call throw, and
    a number from [10^21] is searched in its exponent notation. *)
Example checkSubject_conversions :
  checkSubject (VObject [("toString", VNum 0)]) (VStr "a") = Throw TypeError None
  /\ checkSubject (VNum (10 ^ 21)) (VStr "1e") = Ok true.
Proof. split; vm_compute; reflexivity. Qed.

(** ** [placeholder] *)















(** A token that names an inherited property is outside the model (the
    program substitutes the string of the inherited function). *)
Example placeholder_inherited :
  placeholder "{constructor}" (VObject []) = Unmodelled.
Proof. reflexivity. Qed.

(** ** [mergeRecursive] *)

Lemma bind_Ok {A B : Type} (r : result A) (k : A -> result B) (b : B) :
  bind r k = Ok b -> exists a, r = Ok a /\ k a = Ok b.
Proof. destruct r; try discriminate. intros H. now exists a. Qed.

Lemma bind_ret {A : Type} (r : result A) : bind r (fun a => Ok a) = r.
Proof. now destruct r. Qed.

Section MergeLoop.

(** The loop of [mergeRecursive] over the keys of [source], for any
    recursive call [recur]. *)
Variable recur : value -> value -> result value.
Variable source : value.

(** One round of the loop, when it succeeds. *)
Lemma merge_keys_step (p : string) (keys : list string) (t t' : value) :
  merge_keys recur source (p :: keys) t = Ok t' ->
  exists tp sp t1,
    get t p = Ok tp /\ get source p = Ok sp
    /\ (if is_container tp
        then exists merged, recur tp sp = Ok merged /\ set t p merged = Ok t1
        else set t p sp = Ok t1)
    /\ merge_keys recur source keys t1 = Ok t'.
Proof.
  cbn [merge_keys]. intros H.
  apply bind_Ok in H as (tp & Htp & H).
  apply bind_Ok in H as (t1 & Ht1 & H).
  exists tp. fold (is_container tp) in Ht1.
  destruct (is_container tp).
  - apply bind_Ok in Ht1 as (sp & Hsp & Ht1).
    apply bind_Ok in Ht1 as (merged & Hm & Ht1).
    exists sp, t1. repeat split; try assumption. now exists merged.
  - apply bind_Ok in Ht1 as (sp & Hsp & Ht1).
    exists sp, t1. now repeat split.
Qed.

(** Keys other than [k] leave the slot [k] alone. *)
Lemma merge_keys_other (k : string) (keys : list string) (t t' : value) :
  ~ In k keys ->
  (is_array t = true -> ~ In "length" keys /\ k <> "length") ->
  merge_keys recur source keys t = Ok t' ->
  get t' k = get t k /\ is_array t' = is_array t.
Proof.
  revert t; induction keys as [|p keys IH]; intros t Hk Harr H.
  - injection H as <-. now split.
  - apply merge_keys_step in H as (tp & sp & t1 & Htp & Hsp & Hset & H).
    assert (Hset' : exists x, set t p x = Ok t1).
    { destruct (is_container tp); [destruct Hset as (m & _ & Hm); now exists m
                                  | now exists sp]. }
    destruct Hset' as [x Hx].
    pose proof (set_is_array _ _ _ _ Hx) as Ha.
    apply IH in H.
    + destruct H as [H1 H2]. rewrite H1, H2, Ha. split; [|reflexivity].
      apply (get_set_other _ _ _ _ _ Hx).
      * intros ->. apply Hk. now left.
      * intros Hy. destruct (Harr Hy) as [Hl Hkl]. split; [|exact Hkl].
        intros ->. apply Hl. now left.
    + intros Hin. apply Hk. now right.
    + rewrite Ha. intros Hy. destruct (Harr Hy) as [Hl Hkl].
      split; [|exact Hkl]. intros Hin. apply Hl. now right.
Qed.



End MergeLoop.



Lemma mergeRecursive_one (target source : value) :
  mergeRecursive target [source]
  = merge_source (S (Nat.max (depth source) (depth target))) target source.
Proof. unfold mergeRecursive. cbn [merge_sources map fold_right]. apply bind_ret. Qed.


(** ** Depth, and the fuel of [mergeRecursive] *)

Lemma depth_object (ps : props) : depth (VObject ps) = S (deepest ps).
Proof. reflexivity. Qed.

Lemma depth_array (n : Z) (ps : props) : depth (VArray n ps) = S (deepest ps).
Proof. reflexivity. Qed.

Lemma deepest_lookup (k : string) (ps : props) (v : value) :
  lookup k ps = Some v -> (depth v <= deepest ps)%nat.
Proof.
  induction ps as [|[k' x] ps IH]; simpl; [discriminate|].
  destruct (k' =? k)%string.
  - intros H. injection H as ->. lia.
  - intros H. apply IH in H. lia.
Qed.

Lemma deepest_put (k : string) (x : value) (ps : props) :
  (deepest (put k x ps) <= Nat.max (deepest ps) (depth x))%nat.
Proof.
  induction ps as [|[k' v] ps IH]; simpl; [lia|].
  destruct (k' =? k)%string; simpl; [lia|].
  destruct (goes_before k k'); simpl; lia.
Qed.

Lemma deepest_filter (f : string * value -> bool) (ps : props) :
  (deepest (filter f ps) <= deepest ps)%nat.
Proof.
  induction ps as [|[k v] ps IH]; simpl; [lia|].
  destruct (f (k, v)); simpl; lia.
Qed.

Lemma absent_depth (p : string) (v : value) : absent p = Ok v -> depth v = O.
Proof.
  unfold absent. destruct (inherited p); [discriminate|].
  intros H. now injection H as <-.
Qed.

Lemma depth_get (t : value) (p : string) (v : value) :
  get t p = Ok v -> (S (depth v) <= depth t)%nat \/ depth v = O.
Proof.
  destruct t as [| |b|n|s|ps|n ps]; try discriminate.
  - intros H. right. now apply absent_depth in H.
  - intros H. right. now apply absent_depth in H.
  - simpl. destruct (p =? "length")%string.
    + intros H. injection H as <-. now right.
    + destruct (index_of_key p); [destruct (String.get _ s)|];
        intros H; right; try (now apply absent_depth in H);
        now injection H as <-.
  - cbn [get]. rewrite depth_object.
    destruct (lookup p ps) eqn:E.
    + intros H. injection H as <-. apply deepest_lookup in E. left. lia.
    + intros H. right. now apply absent_depth in H.
  - cbn [get]. rewrite depth_array. destruct (p =? "length")%string.
    + intros H. injection H as <-. now right.
    + destruct (lookup p ps) eqn:E.
      * intros H. injection H as <-. apply deepest_lookup in E. left. lia.
      * intros H. right. now apply absent_depth in H.
Qed.

Lemma depth_set_length (n : Z) (ps : props) (x t' : value) :
  set_length n ps x = Ok t' -> (depth t' <= S (deepest ps))%nat.
Proof.
  unfold set_length.
  assert (Hresize : forall m,
             (if (0 <=? m) && (m <? 4294967296)
              then Ok (VArray m (if m <? n then filter (below m) ps else ps))
              else Throw RangeError None) = Ok t' ->
             (depth t' <= S (deepest ps))%nat).
  { intros m. destruct ((0 <=? m) && (m <? 4294967296)); [|discriminate].
    intros H. injection H as <-. rewrite depth_array.
    destruct (m <? n); [|lia].
    pose proof (deepest_filter (below m) ps). lia. }
  destruct x; try discriminate; apply Hresize.
Qed.

Lemma depth_set (t : value) (p : string) (x t' : value) :
  set t p x = Ok t' ->
  (depth t' <= Nat.max (depth t) (S (depth x)))%nat /\ (1 <= depth t)%nat.
Proof.
  destruct t as [| |b|n|s|ps|n ps]; try discriminate;
    try (cbn [set]; destruct (p =? "__proto__")%string; discriminate).
  - cbn [set]. intros H. no_setter H. injection H as <-. rewrite !depth_object.
    pose proof (deepest_put p x ps). lia.
  - cbn [set]. rewrite depth_array. destruct (p =? "length")%string.
    + intros H. apply depth_set_length in H. lia.
    + intros H. no_setter H. injection H as <-. rewrite depth_array.
      pose proof (deepest_put p x ps). lia.
Qed.

Lemma absent_not_OutOfFuel (p : string) : absent p <> OutOfFuel.
Proof. unfold absent. destruct (inherited p); discriminate. Qed.

Lemma get_not_OutOfFuel (t : value) (p : string) : get t p <> OutOfFuel.
Proof.
  destruct t as [| |b|n|s|ps|n ps]; try discriminate; simpl;
    try apply absent_not_OutOfFuel.
  - destruct (p =? "length")%string; [discriminate|].
    destruct (index_of_key p); [destruct (String.get _ s)|];
      try discriminate; apply absent_not_OutOfFuel.
  - destruct (lookup p ps); [discriminate | apply absent_not_OutOfFuel].
  - destruct (p =? "length")%string; [discriminate|].
    destruct (lookup p ps); [discriminate | apply absent_not_OutOfFuel].
Qed.

Lemma set_not_OutOfFuel (t : value) (p : string) (x : value) :
  set t p x <> OutOfFuel.
Proof.
  destruct t as [| |b|n|s|ps|n ps]; try discriminate; simpl;
    try (destruct (p =? "__proto__")%string; discriminate).
  - destruct (calls_setter p ps); discriminate.
  - destruct (p =? "length")%string; [|destruct (calls_setter p ps); discriminate].
    unfold set_length.
    destruct x; try discriminate;
      match goal with |- context [if ?c then _ else _] => destruct c end;
      discriminate.
Qed.

Lemma within_bind (n : nat) (r : result value) (k : value -> result value) :
  r <> OutOfFuel -> (forall a, r = Ok a -> within n (k a)) ->
  within n (bind r k).
Proof. destruct r; simpl; auto. Qed.

Lemma container_depth (v : value) : is_container v = true -> (1 <= depth v)%nat.
Proof.
  intros H. apply is_container_cases in H as [[ps ->]|(m & ps & ->)].
  - rewrite depth_object. lia.
  - rewrite depth_array. lia.
Qed.

Lemma merge_keys_within (recur : value -> value -> result value)
  (source : value) (n : nat) :
  (forall tp sp, (S (depth tp) <= n)%nat -> (S (depth sp) <= n)%nat ->
                 within (Nat.pred n) (recur tp sp)) ->
  (depth source <= n)%nat ->
  forall keys t, (depth t <= n)%nat ->
    within n (merge_keys recur source keys t).
Proof.
  intros Hrec Hs keys. induction keys as [|p keys IH]; intros t Ht; [exact Ht|].
  cbn [merge_keys]. apply within_bind; [apply get_not_OutOfFuel|].
  intros tp Htp. fold (is_container tp).
  assert (Hstep : forall t1,
             (if is_container tp
              then exists sp merged, get source p = Ok sp
                     /\ recur tp sp = Ok merged /\ set t p merged = Ok t1
              else exists sp, get source p = Ok sp /\ set t p sp = Ok t1) ->
             (depth t1 <= n)%nat).
  { intros t1 H. destruct (is_container tp) eqn:Ec.
    - destruct H as (sp & merged & Hsp & Hm & Hset).
      pose proof (container_depth _ Ec) as Hd.
      destruct (depth_get _ _ _ Htp) as [Hlt|H0]; [|lia].
      assert (Hsp' : (S (depth sp) <= n)%nat).
      { destruct (depth_get _ _ _ Hsp) as [H1|H1]; lia. }
      specialize (Hrec tp sp ltac:(lia) Hsp'). rewrite Hm in Hrec. simpl in Hrec.
      apply depth_set in Hset as [Hset _]. lia.
    - destruct H as (sp & Hsp & Hset).
      apply depth_set in Hset as [Hset H1].
      destruct (depth_get _ _ _ Hsp) as [H2|H2]; lia. }
  apply within_bind.
  - destruct (is_container tp) eqn:Ec.
    + destruct (get source p) as [sp| | |] eqn:Hsp; try discriminate.
      * simpl. destruct (recur tp sp) as [m| | |] eqn:Hm; try discriminate.
        -- simpl. apply set_not_OutOfFuel.
        -- pose proof (container_depth _ Ec) as Hd.
           destruct (depth_get _ _ _ Htp) as [Hlt|H0]; [|lia].
           assert (Hsp' : (S (depth sp) <= n)%nat).
           { destruct (depth_get _ _ _ Hsp) as [H1|H1]; lia. }
           specialize (Hrec tp sp ltac:(lia) Hsp'). now rewrite Hm in Hrec.
      * now apply get_not_OutOfFuel in Hsp.
    + destruct (get source p) as [sp| | |] eqn:Hsp; try discriminate.
      * simpl. apply set_not_OutOfFuel.
      * now apply get_not_OutOfFuel in Hsp.
  - intros t1 Ht1. apply IH, Hstep.
    destruct (is_container tp).
    + apply bind_Ok in Ht1 as (sp & Hsp & Ht1).
      apply bind_Ok in Ht1 as (m & Hm & Ht1). now exists sp, m.
    + apply bind_Ok in Ht1 as (sp & Hsp & Ht1). now exists sp.
Qed.

(** With more fuel than the depth of its arguments [merge_source] does not
    run out of it, and its result is no deeper than they are. *)
Lemma merge_source_within (fuel n : nat) (t s : value) :
  (depth t <= n)%nat -> (depth s <= n)%nat -> (n < fuel)%nat ->
  within n (merge_source fuel t s).
Proof.
  revert n t s; induction fuel as [|fuel IH]; intros n t s Ht Hs Hn; [lia|].
  cbn [merge_source]. apply merge_keys_within; try assumption.
  intros tp sp Htp Hsp. apply IH; lia.
Qed.

Lemma merge_sources_within (fuel n : nat) (sources : list value) (t : value) :
  (depth t <= n)%nat -> Forall (fun s => (depth s <= n)%nat) sources ->
  (n < fuel)%nat -> within n (merge_sources fuel t sources).
Proof.
  intros Ht Hss Hn. revert t Ht. induction Hss as [|s ss Hs Hss IH]; intros t Ht.
  - exact Ht.
  - cbn [merge_sources].
    pose proof (merge_source_within fuel n t s Ht Hs Hn) as H.
    destruct (merge_source fuel t s); simpl in *; auto.
Qed.

Lemma fold_max_bounds (d : nat) (ds : list nat) :
  (d <= fold_right Nat.max d ds)%nat
  /\ Forall (fun x => (x <= fold_right Nat.max d ds)%nat) ds.
Proof.
  induction ds as [|x ds [IH1 IH2]]; simpl; [split; [lia | constructor]|].
  split; [lia|]. constructor; [lia|].
  apply Forall_impl with (2 := IH2). intros; lia.
Qed.

(** [mergeRecursive] gives itself enough fuel: every call returns or
    throws. *)
Theorem mergeRecursive_fuel (target : value) (sources : list value) :
  mergeRecursive target sources <> OutOfFuel.
Proof.
  unfold mergeRecursive. destruct sources as [|s ss]; [discriminate|].
  set (n := fold_right Nat.max (depth target) (map depth (s :: ss))).
  destruct (fold_max_bounds (depth target) (map depth (s :: ss))) as [H1 H2].
  fold n in H1, H2.
  assert (H : within n (merge_sources (S n) target (s :: ss))).
  { apply merge_sources_within; [exact H1| |lia].
    apply Forall_map in H2. exact H2. }
  intros E. rewrite E in H. exact H.
Qed.

(** More fuel does not change a result. *)
Lemma merge_keys_recur (recur1 recur2 : value -> value -> result value)
  (source : value) :
  (forall tp sp r, recur1 tp sp = r -> r <> OutOfFuel -> recur2 tp sp = r) ->
  forall keys t r,
    merge_keys recur1 source keys t = r -> r <> OutOfFuel ->
    merge_keys recur2 source keys t = r.
Proof.
  intros Hrec keys. induction keys as [|p keys IH]; intros t r H Hr; [exact H|].
  cbn [merge_keys] in *. destruct (get t p) as [tp| | |]; try exact H.
  cbn [bind] in *. destruct (truthy tp && is_object_type tp).
  - destruct (get source p) as [sp| | |]; try exact H. cbn [bind] in *.
    destruct (recur1 tp sp) as [m| | |] eqn:E.
    + rewrite (Hrec tp sp (Ok m) E) by discriminate. cbn [bind] in *.
      destruct (set t p m); try exact H. cbn [bind] in *. now apply IH.
    + rewrite (Hrec tp sp _ E) by discriminate. exact H.
    + rewrite (Hrec tp sp _ E) by discriminate. exact H.
    + cbn [bind] in H. congruence.
  - destruct (get source p) as [sp| | |]; try exact H. cbn [bind] in *.
    destruct (set t p sp); try exact H. cbn [bind] in *. now apply IH.
Qed.

Lemma merge_source_more (fuel : nat) (t s : value) (r : result value) :
  merge_source fuel t s = r -> r <> OutOfFuel -> merge_source (S fuel) t s = r.
Proof.
  revert t s r; induction fuel as [|fuel IH]; intros t s r H Hr.
  - simpl in H. congruence.
  - cbn [merge_source] in *.
    apply merge_keys_recur with (recur1 := merge_source fuel); assumption.
Qed.

Lemma merge_source_enough (fuel fuel' : nat) (t s : value) (r : result value) :
  (fuel <= fuel')%nat ->
  merge_source fuel t s = r -> r <> OutOfFuel -> merge_source fuel' t s = r.
Proof.
  intros Hle H Hr. induction Hle as [|fuel' Hle IH]; [exact H|].
  now apply merge_source_more.
Qed.






(** A source key [__proto__] that the target does not own, and a key that
    the target inherits, leave the model. *)
Example mergeRecursive_prototype :
  mergeRecursive (VObject [])
                 [VObject [("__proto__", VObject [("polluted", VNum 1)])]]
  = Unmodelled
  /\ mergeRecursive (VObject []) [VObject [("constructor", VNum 1)]]
     = Unmodelled.
Proof. split; reflexivity. Qed.

(** ** Calls of [mergeRecursive] that return *)

Lemma ordinary_props_lookup (k : string) (ps : props) (v : value) :
  ordinary_props ps = true -> lookup k ps = Some v -> ordinary_keys v = true.
Proof.
  induction ps as [|[k' x] ps IH]; simpl; [discriminate|].
  rewrite !andb_true_iff. intros [[_ Hx] Hps].
  destruct (k' =? k)%string; [intros H; now injection H as <- | now apply IH].
Qed.

Lemma ordinary_props_in (ps : props) (k : string) :
  ordinary_props ps = true -> In k (map fst ps) -> ordinary k = true.
Proof.
  induction ps as [|[k' x] ps IH]; simpl; [tauto|].
  rewrite !andb_true_iff. intros [[Hk _] Hps] [H|H]; [now subst k' | now apply IH].
Qed.

Lemma ordinary_cases (k : string) :
  ordinary k = true -> k <> "length" /\ inherited k = false.
Proof.
  unfold ordinary. rewrite andb_true_iff, !negb_true_iff, String.eqb_neq. tauto.
Qed.

(** Every name of the prototypes begins with a letter or an underscore. *)
Lemma prototype_names_head :
  Forall (fun name => match name with
                      | String c _ => is_digit c = false
                      | EmptyString => False
                      end) prototype_names.
Proof. repeat constructor. Qed.

Lemma digits_ordinary (k : string) :
  k <> "" -> all_chars is_digit k = true -> ordinary k = true.
Proof.
  intros Hne Hd. unfold ordinary. apply andb_true_iff. split.
  - apply negb_true_iff, String.eqb_neq. intros ->. discriminate.
  - apply negb_true_iff. destruct (inherited k) eqn:E; [|reflexivity].
    unfold inherited in E. apply existsb_exists in E as (name & Hin & E).
    apply String.eqb_eq in E. subst name.
    pose proof prototype_names_head as H.
    rewrite Forall_forall in H. specialize (H k Hin).
    destruct k as [|c k]; [contradiction|]. simpl in Hd.
    apply andb_true_iff in Hd as [Hc _]. congruence.
Qed.

Lemma decimal_ordinary (n : Z) : 0 <= n -> ordinary (decimal n) = true.
Proof.
  intros H. apply digits_ordinary; [|now apply decimal_all_digits].
  destruct (decimal_head n H) as (c & s & -> & _). discriminate.
Qed.

Lemma own_keys_ordinary (s : value) (k : string) :
  ordinary_keys s = true -> In k (own_keys s) -> ordinary k = true.
Proof.
  destruct s as [| |b|n|s|ps|n ps]; simpl; try tauto.
  - intros _ H. apply in_map_iff in H as (i & <- & _).
    apply decimal_ordinary. lia.
  - apply ordinary_props_in.
  - apply ordinary_props_in.
Qed.

Lemma get_ordinary_keys (s : value) (p : string) (sp : value) :
  ordinary_keys s = true -> get s p = Ok sp -> ordinary_keys sp = true.
Proof.
  assert (Habsent : absent p = Ok sp -> ordinary_keys sp = true).
  { unfold absent. destruct (inherited p); [discriminate|].
    intros H. now injection H as <-. }
  destruct s as [| |b|n|s|ps|n ps]; try discriminate; try (intros _; exact Habsent).
  - intros _. simpl. destruct (p =? "length")%string.
    + intros H. now injection H as <-.
    + destruct (index_of_key p); [destruct (String.get _ s)|];
        try exact Habsent; intros H; now injection H as <-.
  - intros Hs. cbn [get]. destruct (lookup p ps) eqn:E; [|exact Habsent].
    intros H. injection H as <-. now apply (ordinary_props_lookup p ps).
  - intros Hs. cbn [get]. destruct (p =? "length")%string.
    + intros H. now injection H as <-.
    + destruct (lookup p ps) eqn:E; [|exact Habsent].
      intros H. injection H as <-. now apply (ordinary_props_lookup p ps).
Qed.

Lemma get_source_key (s : value) (p : string) :
  In p (own_keys s) -> exists sp, get s p = Ok sp.
Proof.
  destruct s as [| |b|n|s|ps|n ps]; simpl; try tauto.
  - intros H. apply in_map_iff in H as (i & <- & Hi). apply in_seq in Hi.
    destruct (decimal (Z.of_nat i) =? "length")%string; [eexists; reflexivity|].
    destruct (index_of_key _); [destruct (String.get _ s)|];
      try (eexists; reflexivity).
    rewrite absent_returns; [eexists; reflexivity|].
    apply ordinary_cases, decimal_ordinary. lia.
  - intros H. destruct (lookup_in_keys p ps H) as [v ->]. now eexists.
  - intros H. destruct (p =? "length")%string; [eexists; reflexivity|].
    destruct (lookup_in_keys p ps H) as [v ->]. now eexists.
Qed.

Lemma set_container (t : value) (p : string) (x : value) :
  is_container t = true -> ordinary p = true ->
  exists t', set t p x = Ok t' /\ is_container t' = true.
Proof.
  intros H Hp. apply ordinary_cases in Hp as [Hp Hi].
  assert (Hs : forall ps, calls_setter p ps = false).
  { intros ps. unfold calls_setter.
    destruct (p =? "__proto__")%string eqn:E; [|reflexivity].
    apply String.eqb_eq in E. subst p. discriminate. }
  apply String.eqb_neq in Hp.
  apply is_container_cases in H as [[ps ->]|(n & ps & ->)]; simpl;
    rewrite ?Hp, Hs; eexists; split; reflexivity.
Qed.

Lemma merge_keys_returns (recur : value -> value -> result value)
  (source : value) :
  (forall tp sp, is_container tp = true -> ordinary_keys sp = true ->
                 recur tp sp = OutOfFuel
                 \/ exists r, recur tp sp = Ok r /\ is_container r = true) ->
  ordinary_keys source = true ->
  forall keys t,
    (forall p, In p keys -> In p (own_keys source)) ->
    is_container t = true ->
    merge_keys recur source keys t = OutOfFuel
    \/ exists r, merge_keys recur source keys t = Ok r /\ is_container r = true.
Proof.
  intros Hrec Hs keys. induction keys as [|p keys IH]; intros t Hkeys Ht.
  - right. now exists t.
  - assert (Hin : In p (own_keys source)) by (apply Hkeys; now left).
    assert (Hp : ordinary p = true) by (now apply (own_keys_ordinary source)).
    cbn [merge_keys].
    destruct (get_object t p (proj2 (ordinary_cases p Hp)) Ht) as [tp ->].
    cbn [bind].
    destruct (get_source_key source p Hin) as [sp Hsp]. rewrite Hsp. cbn [bind].
    fold (is_container tp).
    assert (Hnext : forall x,
               (t1 <- set t p x ;; merge_keys recur source keys t1) = OutOfFuel
               \/ exists r, (t1 <- set t p x ;; merge_keys recur source keys t1) = Ok r
                            /\ is_container r = true).
    { intros x. destruct (set_container t p x Ht Hp) as (t1 & -> & Ht1).
      cbn [bind]. apply IH; [|exact Ht1]. intros q Hq. apply Hkeys. now right. }
    destruct (is_container tp) eqn:Ec.
    + destruct (Hrec tp sp Ec (get_ordinary_keys _ _ _ Hs Hsp)) as [E|(r & E & Hr)];
        rewrite E; cbn [bind]; [now left | apply Hnext].
    + apply Hnext.
Qed.

Lemma merge_source_returns (fuel : nat) (t s : value) :
  is_container t = true -> ordinary_keys s = true ->
  merge_source fuel t s = OutOfFuel
  \/ exists r, merge_source fuel t s = Ok r /\ is_container r = true.
Proof.
  revert t s; induction fuel as [|fuel IH]; intros t s Ht Hs; [now left|].
  cbn [merge_source]. apply merge_keys_returns; auto.
Qed.

(** Merging a source into an object or an array returns, and nothing is
    thrown, when no key inside the source is [length] or a name that the
    prototypes define. *)
Theorem mergeRecursive_returns (target source : value) :
  is_container target = true -> ordinary_keys source = true ->
  exists result, mergeRecursive target [source] = Ok result.
Proof.
  intros Ht Hs. pose proof (mergeRecursive_fuel target [source]) as Hf.
  rewrite mergeRecursive_one in *.
  destruct (merge_source_returns (S (Nat.max (depth source) (depth target)))
              target source Ht Hs) as [E|(r & E & _)];
    [contradiction | now exists r].
Qed.

(** ** Inserting at a position *)

Lemma length_take (n : nat) (s : string) :
  String.length (take n s) = Nat.min n (String.length s).
Proof.
  revert s; induction n as [|n IH]; intros [|c s]; simpl; try reflexivity.
  now rewrite IH.
Qed.

Lemma length_drop (n : nat) (s : string) :
  String.length (drop n s) = (String.length s - n)%nat.
Proof.
  revert s; induction n as [|n IH]; intros [|c s]; simpl; try reflexivity.
  apply IH.
Qed.

Lemma take_all (n : nat) (s : string) :
  (String.length s <= n)%nat -> take n s = s.
Proof.
  revert s; induction n as [|n IH]; intros [|c s] H; simpl in *;
    try reflexivity; try lia.
  now rewrite IH by lia.
Qed.

Lemma drop_all (n : nat) (s : string) :
  (String.length s <= n)%nat -> drop n s = "".
Proof.
  revert s; induction n as [|n IH]; intros [|c s] H; simpl in *;
    try reflexivity; try lia.
  apply IH. lia.
Qed.

Lemma insertStr_at (s t : string) (p : Z) :
  0 <= p ->
  insertStr s t p
  = take (Z.to_nat (Z.min p (len s))) s ++ t ++ drop (Z.to_nat (Z.min p (len s))) s.
Proof.
  intros Hp. unfold insertStr, substr, substr_from.
  pose proof (len_nonneg s).
  replace (Z.min 0 (len s)) with 0 by lia.
  cbn [Z.ltb Z.compare Z.to_nat]. destruct (p <? 0) eqn:E; [lia|].
  rewrite drop_0.
  replace (Z.min (Z.max p 0) (len s - 0)) with (Z.min p (len s)) by lia.
  reflexivity.
Qed.

(** X1: for a position [p >= 0], [insertStr(str, target, p)] splits [str]
    after its first [min(p, str.length)] characters and puts [target]
    between the two parts: nothing of [str] is lost, and a position past
    the end appends. *)
Theorem insertStr_splits (s t : string) (p : Z) :
  0 <= p ->
  exists a b,
    s = a ++ b /\ len a = Z.min p (len s) /\ insertStr s t p = a ++ t ++ b.
Proof.
  intros Hp. rewrite insertStr_at by exact Hp.
  set (k := Z.to_nat (Z.min p (len s))).
  exists (take k s), (drop k s). split; [now rewrite take_drop|].
  split; [|reflexivity].
  unfold len. rewrite length_take. unfold k, len. lia.
Qed.

Lemma insertStr_splits_witness :
  exists a b,
    "abc" = a ++ b /\ len a = Z.min 1 (len "abc")
    /\ insertStr "abc" "X" 1 = a ++ "X" ++ b.
Proof. apply (insertStr_splits "abc" "X" 1). lia. Defined.

(** X2: for a negative position, [insertStr] keeps only the last [-p]
    characters of [str], after [target]: the head of [str] is dropped. *)
Theorem insertStr_negative (s t : string) (p : Z) :
  p < 0 ->
  exists head tail,
    s = head ++ tail /\ len tail = Z.min (- p) (len s)
    /\ insertStr s t p = t ++ tail.
Proof.
  intros Hp. unfold insertStr, substr, substr_from.
  pose proof (len_nonneg s).
  replace (Z.min 0 (len s)) with 0 by lia.
  cbn [Z.ltb Z.compare Z.to_nat]. destruct (p <? 0) eqn:E; [|lia].
  assert (E0 : Z.to_nat (Z.min (Z.max p 0) (len s - 0)) = 0%nat) by lia.
  rewrite E0, take_0. cbn [append].
  set (k := Z.to_nat (Z.max (len s + p) 0)).
  exists (take k s), (drop k s). split; [now rewrite take_drop|].
  split; [|reflexivity].
  unfold len. rewrite length_drop. unfold k, len in *. lia.
Qed.

Lemma insertStr_negative_witness :
  exists head tail,
    "abc" = head ++ tail /\ len tail = Z.min (- -1) (len "abc")
    /\ insertStr "abc" "X" (-1) = "X" ++ tail.
Proof. apply (insertStr_negative "abc" "X" (-1)). lia. Defined.

(** ** [ensureStartsWith] at a position *)

Lemma slice_within (s : string) (p q : Z) :
  0 <= p <= q ->
  slice s p q
  = take (Z.to_nat (Z.min q (len s) - Z.min p (len s)))
         (drop (Z.to_nat (Z.min p (len s))) s).
Proof.
  intros H. unfold slice.
  destruct (p <? 0) eqn:E1; [lia|]. destruct (q <? 0) eqn:E2; [lia|].
  reflexivity.
Qed.

Lemma startsWith_at (s t : string) (p : Z) :
  0 <= p <= len s ->
  Lodash.startsWith s t (Some p)
  = (take (String.length t) (drop (Z.to_nat p) s) =? t)%string.
Proof.
  intros H. unfold Lodash.startsWith.
  replace (Z.max 0 (Z.min p (len s))) with p by lia.
  pose proof (len_nonneg t).
  rewrite slice_within by lia.
  replace (Z.min p (len s)) with p by lia.
  destruct (Z_le_gt_dec (p + len t) (len s)) as [Hle|Hgt].
  - replace (Z.min (p + len t) (len s) - p) with (len t) by lia.
    unfold len at 1. now rewrite Nat2Z.id.
  - replace (Z.min (p + len t) (len s) - p) with (len s - p) by lia.
    assert (Hd : String.length (drop (Z.to_nat p) s)
                 = Z.to_nat (len s - p)).
    { rewrite length_drop. unfold len. lia. }
    rewrite !take_all; [reflexivity | | ]; rewrite Hd; unfold len in *; lia.
Qed.

Lemma drop_take_append (a t b : string) :
  take (String.length t) (drop (String.length a) (a ++ t ++ b)) = t.
Proof. now rewrite drop_append, take_append. Qed.

Lemma ensureStartsWith_cases (s t : string) (p : Z) :
  0 <= p <= len s ->
  Lodash.startsWith (ensureStartsWith (Some s) t (Some p)) t (Some p) = true
  /\ (ensureStartsWith (Some s) t (Some p) = s
      \/ ensureStartsWith (Some s) t (Some p) = insertStr s t p).
Proof.
  intros H. unfold ensureStartsWith.
  destruct (Lodash.startsWith s t (Some p)) eqn:E; [split; [exact E | now left]|].
  split; [|now right].
  rewrite insertStr_at by lia. replace (Z.min p (len s)) with p by lia.
  set (a := take (Z.to_nat p) s). set (b := drop (Z.to_nat p) s).
  assert (Ha : String.length a = Z.to_nat p).
  { unfold a. rewrite length_take. unfold len in H. lia. }
  rewrite startsWith_at.
  - rewrite <- Ha, drop_take_append. apply String.eqb_refl.
  - unfold len. rewrite !length_append. unfold len in H. lia.
Qed.

(** X3: for a position within [str], the result of [ensureStartsWith] has
    [target] at that position; it is [str] itself or [str] with [target]
    inserted there, and a second call returns it unchanged. *)
Theorem ensureStartsWith_ensures (s t : string) (p : Z) :
  0 <= p <= len s ->
  Lodash.startsWith (ensureStartsWith (Some s) t (Some p)) t (Some p) = true
  /\ (ensureStartsWith (Some s) t (Some p) = s
      \/ ensureStartsWith (Some s) t (Some p) = insertStr s t p)
  /\ ensureStartsWith (Some (ensureStartsWith (Some s) t (Some p))) t (Some p)
     = ensureStartsWith (Some s) t (Some p).
Proof.
  intros H. destruct (ensureStartsWith_cases s t p H) as [H1 H2].
  split; [exact H1 | split; [exact H2|]].
  set (r := ensureStartsWith (Some s) t (Some p)) in *.
  unfold ensureStartsWith. now rewrite H1.
Qed.

Lemma ensureStartsWith_ensures_witness :
  Lodash.startsWith (ensureStartsWith (Some "abc") "x" (Some 2)) "x" (Some 2) = true
  /\ (ensureStartsWith (Some "abc") "x" (Some 2) = "abc"
      \/ ensureStartsWith (Some "abc") "x" (Some 2) = insertStr "abc" "x" 2)
  /\ ensureStartsWith (Some (ensureStartsWith (Some "abc") "x" (Some 2))) "x" (Some 2)
     = ensureStartsWith (Some "abc") "x" (Some 2).
Proof. apply (ensureStartsWith_ensures "abc" "x" 2). unfold len. simpl. lia. Defined.

(** X4: with a position at or past the end of [str] and a non-empty
    [target], [ensureStartsWith] appends [target], also when [str]
    already holds it: a second call appends it again. *)
Theorem ensureStartsWith_past_end (s t : string) (p : Z) :
  len s <= p -> t <> "" ->
  ensureStartsWith (Some s) t (Some p) = s ++ t.
Proof.
  intros Hp Ht. unfold ensureStartsWith. pose proof (len_nonneg s).
  assert (E : Lodash.startsWith s t (Some p) = false).
  { unfold Lodash.startsWith.
    replace (Z.max 0 (Z.min p (len s))) with (len s) by lia.
    pose proof (len_nonneg t). rewrite slice_within by lia.
    replace (Z.min (len s) (len s)) with (len s) by lia.
    replace (Z.min (len s + len t) (len s) - len s) with 0 by lia.
    rewrite take_0. destruct t; [contradiction | reflexivity]. }
  rewrite E, insertStr_at by lia.
  replace (Z.min p (len s)) with (len s) by lia.
  unfold len. rewrite Nat2Z.id, take_all, drop_all by lia. now rewrite append_nil_r.
Qed.

Lemma ensureStartsWith_past_end_witness :
  ensureStartsWith (Some "abx") "x" (Some 5) = "abx" ++ "x".
Proof.
  apply (ensureStartsWith_past_end "abx" "x" 5); [unfold len; simpl; lia | discriminate].
Defined.

(** ** [ensureEndsWith] *)

Lemma endsWith_suffix (s t : string) :
  endsWith s t None = true <-> exists pre, s = pre ++ t.
Proof.
  unfold endsWith. pose proof (len_nonneg s). pose proof (len_nonneg t).
  rewrite andb_true_iff, Z.leb_le, String.eqb_eq. split.
  - intros [Hle Hs]. rewrite slice_within in Hs by lia.
    replace (Z.min (len s) (len s)) with (len s) in Hs by lia.
    replace (Z.min (len s - len t) (len s)) with (len s - len t) in Hs by lia.
    set (k := Z.to_nat (len s - len t)) in *.
    rewrite take_all in Hs by (rewrite length_drop; unfold k, len in *; lia).
    exists (take k s). rewrite <- Hs. symmetry. apply take_drop.
  - intros [pre ->].
    assert (Hl : len (pre ++ t) = len pre + len t).
    { unfold len. rewrite length_append. lia. }
    pose proof (len_nonneg pre). split; [lia|].
    rewrite slice_within by lia. rewrite Hl.
    replace (Z.min (len pre + len t) (len pre + len t)) with (len pre + len t) by lia.
    replace (Z.min (len pre + len t - len t) (len pre + len t)) with (len pre) by lia.
    replace (len pre + len t - len pre) with (len t) by lia.
    unfold len. now rewrite !Nat2Z.id, drop_append, take_all by lia.
Qed.

Lemma insertStr_end (s t : string) : insertStr s t (len s) = s ++ t.
Proof.
  pose proof (len_nonneg s). rewrite insertStr_at by lia.
  replace (Z.min (len s) (len s)) with (len s) by lia.
  unfold len. rewrite Nat2Z.id, take_all, drop_all by lia. now rewrite append_nil_r.
Qed.

Lemma ensureEndsWith_default (s t : string) :
  ensureEndsWith (Some s) t None = if endsWith s t None then s else s ++ t.
Proof.
  unfold ensureEndsWith. destruct (endsWith s t None); [reflexivity|].
  apply insertStr_end.
Qed.

(** X5: with the default position, the result of [ensureEndsWith] ends
    with [target]; it is [str] or [str + target], and a second call
    returns it unchanged. *)
Theorem ensureEndsWith_ensures (s t : string) :
  (exists pre, ensureEndsWith (Some s) t None = pre ++ t)
  /\ (ensureEndsWith (Some s) t None = s
      \/ ensureEndsWith (Some s) t None = s ++ t)
  /\ ensureEndsWith (Some (ensureEndsWith (Some s) t None)) t None
     = ensureEndsWith (Some s) t None.
Proof.
  rewrite !ensureEndsWith_default.
  destruct (endsWith s t None) eqn:E.
  - split; [now apply endsWith_suffix|]. split; [now left|].
    now rewrite E.
  - split; [now exists s|]. split; [now right|].
    assert (E' : endsWith (s ++ t) t None = true)
      by (apply endsWith_suffix; now exists s).
    now rewrite E'.
Qed.

Lemma take_eqb_starts (t s : string) :
  (take (String.length t) s =? t)%string = starts t s.
Proof.
  revert s; induction t as [|c t IH]; intros s.
  - now rewrite take_0.
  - destruct s as [|d s]; [reflexivity|]. cbn [String.length take starts String.eqb].
    rewrite IH, Ascii.eqb_sym. reflexivity.
Qed.

Lemma ensureStartsWith_default (s t : string) :
  ensureStartsWith (Some s) t None = if starts t s then s else t ++ s.
Proof.
  unfold ensureStartsWith. pose proof (len_nonneg s).
  rewrite startsWith_at by lia. cbn [Z.to_nat]. rewrite drop_0, take_eqb_starts.
  destruct (starts t s); [reflexivity | apply insertStr_front].
Qed.

Lemma endsWith_after_char (c : ascii) (s : string) :
  s <> "" -> endsWith (str1 c ++ s) (str1 c) None = endsWith s (str1 c) None.
Proof.
  intros Hs. apply eq_true_iff_eq. rewrite !endsWith_suffix. split.
  - intros [[|d pre] H].
    + simpl in H. injection H as H. now destruct s.
    + simpl in H. injection H as _ H. now exists pre.
  - intros [pre ->]. exists (str1 c ++ pre). now rewrite append_assoc.
Qed.

Lemma starts_before_char (c : ascii) (s : string) :
  s <> "" -> starts (str1 c) (s ++ str1 c) = starts (str1 c) s.
Proof. destruct s; [contradiction | reflexivity]. Qed.

Lemma ensure_ends_of_empty (c : ascii) :
  ensureStartsWith (Some "") (str1 c) None = str1 c
  /\ ensureEndsWith (Some "") (str1 c) None = str1 c
  /\ ensureStartsWith (Some (str1 c)) (str1 c) None = str1 c
  /\ ensureEndsWith (Some (str1 c)) (str1 c) None = str1 c.
Proof.
  rewrite !ensureStartsWith_default, !ensureEndsWith_default.
  assert (E : endsWith (str1 c) (str1 c) None = true)
    by (apply endsWith_suffix; now exists "").
  rewrite E. unfold str1. cbn [starts]. rewrite Ascii.eqb_refl.
  repeat split.
Qed.

(** X6: for a one-character [target], making a string start with it and
    making it end with it can be done in either order. *)
Theorem ensure_both_ends (c : ascii) (s : string) :
  ensureEndsWith (Some (ensureStartsWith (Some s) (str1 c) None)) (str1 c) None
  = ensureStartsWith (Some (ensureEndsWith (Some s) (str1 c) None)) (str1 c) None.
Proof.
  destruct s as [|d s].
  - destruct (ensure_ends_of_empty c) as (E1 & E2 & E3 & E4).
    now rewrite E1, E2, E3, E4.
  - rewrite ensureEndsWith_default, !ensureStartsWith_default, ensureEndsWith_default.
    set (s' := String d s). assert (Hs : s' <> "") by discriminate.
    destruct (starts (str1 c) s') eqn:Ep, (endsWith s' (str1 c) None) eqn:Eq;
      rewrite ?endsWith_after_char, ?starts_before_char, ?Ep, ?Eq by exact Hs;
      reflexivity.
Qed.

(** ** Reading and writing times *)

Lemma parseInt_digits (n : Z) :
  0 <= n <= two53 -> parseInt (VStr (decimal n)) = Ok (Some n).
Proof. intros H. unfold parseInt. cbn [to_string bind]. now apply parseInt_decimal. Qed.

Lemma parseInt_undefined : parseInt VUndefined = Ok None.
Proof. reflexivity. Qed.

Lemma decimal_free_of_colon (n : Z) : 0 <= n -> free_of ":" (decimal n) = true.
Proof. intros H. now apply digits_free_of_colon, decimal_all_digits. Qed.



(** X8: a component that is missing counts as zero, and the first
    component is the hours: a bare number [h] is read as [h] hours, and
    [h:m] as hours and minutes (for a result of at most [2^53]). *)
Theorem strToSec_missing_components (h m : Z) :
  0 <= h -> 0 <= m -> h * 3600 + m * 60 <= 2 ^ 53 ->
  strToSec (decimal h) = Ok (h * 3600)
  /\ strToSec (decimal h ++ ":" ++ decimal m) = Ok (h * 3600 + m * 60).
Proof.
  rewrite <- two53_power. intros Hh Hm Hsum. unfold strToSec, split. split.
  - rewrite split_at_free by (now apply decimal_free_of_colon).
    cbn [element nth_error append].
    rewrite parseInt_digits, parseInt_undefined by lia.
    cbn [bind or_zero]. rewrite mul_safe by lia.
    change (mul 0 60) with 0. rewrite (add_safe (h * 3600)) by lia.
    rewrite add_safe by lia. f_equal. lia.
  - change (":" ++ decimal m) with (String ":" (decimal m)).
    rewrite split_at_sep, split_at_free by (now apply decimal_free_of_colon).
    cbn [element nth_error append].
    rewrite !parseInt_digits, parseInt_undefined by lia.
    cbn [bind or_zero]. rewrite !mul_safe by lia.
    rewrite (add_safe (h * 3600)) by lia. rewrite add_safe by lia. f_equal. lia.
Qed.

Lemma strToSec_missing_components_witness :
  strToSec (decimal 90) = Ok (90 * 3600)
  /\ strToSec (decimal 90 ++ ":" ++ decimal 5) = Ok (90 * 3600 + 5 * 60).
Proof. apply (strToSec_missing_components 90 5); lia. Defined.

(** Rounding shows above [2^53]: the sum of these components is
    [2^55 + 64], and the program returns [2^55 + 56]. *)
Example strToSec_rounds :
  strToSec "10007999171934:27:04" = Ok 36028797018964016
  /\ 10007999171934 * 3600 + 27 * 60 + 4 = 36028797018964024.
Proof. split; vm_compute; reflexivity. Qed.

Lemma decimal_two_digits (n : Z) :
  10 <= n < 100 ->
  decimal n = String (digit_char (n / 10)) (str1 (digit_char (n mod 10))).
Proof.
  intros H. rewrite decimal_step by lia.
  rewrite decimal_small; [reflexivity|].
  split; [apply Z.div_pos; lia | apply Z.div_lt_upper_bound; lia].
Qed.

Lemma pad2_two_digits (n : Z) :
  0 <= n < 100 ->
  pad2 n = String (digit_char (n / 10)) (str1 (digit_char (n mod 10))).
Proof.
  intros H. assert (H53 : 100 <= two53) by (now apply Z.leb_le).
  unfold pad2. rewrite number_to_string_safe by lia.
  destruct (n <? 10) eqn:E.
  - rewrite decimal_small by lia.
    rewrite Z.div_small, Z.mod_small by lia. reflexivity.
  - apply decimal_two_digits. lia.
Qed.

(** X9: below a hundred hours [secToStr] writes exactly two digits for
    each of the hours, minutes and seconds, separated by colons. *)
Theorem secToStr_two_digits (b : Z) :
  0 <= b < 360000 ->
  secToStr (VNum b)
  = Ok (String (digit_char (b / 3600 / 10)) (str1 (digit_char (b / 3600 mod 10)))
        ++ ":"
        ++ String (digit_char (b / 60 mod 60 / 10))
                  (str1 (digit_char (b / 60 mod 60 mod 10)))
        ++ ":"
        ++ String (digit_char (b mod 60 / 10))
                  (str1 (digit_char (b mod 60 mod 10)))).
Proof.
  intros H. assert (H53 : 360000 <= two53) by (now apply Z.leb_le).
  rewrite secToStr_number by lia.
  assert (Hm : (b - b / 3600 * 3600) / 60 = b / 60 mod 60).
  { pose proof (Z.div_mod b 3600 ltac:(lia)).
    replace (b - b / 3600 * 3600) with (b mod 3600) by lia.
    rewrite (Z.mod_eq (b / 60) 60) by lia.
    rewrite Z.div_div by lia. change (60 * 60) with 3600.
    pose proof (Z.mod_pos_bound b 3600 ltac:(lia)).
    pose proof (Z.div_mod b 60 ltac:(lia)).
    pose proof (Z.mod_pos_bound b 60 ltac:(lia)).
    symmetry. apply Z.div_unique with (r := b mod 60); lia. }
  rewrite Hm.
  assert (Hs : b - b / 3600 * 3600 - b / 60 mod 60 * 60 = b mod 60).
  { rewrite (Z.mod_eq (b / 60) 60) by lia.
    rewrite Z.div_div by lia. change (60 * 60) with 3600.
    pose proof (Z.div_mod b 60 ltac:(lia)). lia. }
  rewrite Hs.
  assert (0 <= b / 3600 < 100).
  { split; [apply Z.div_pos; lia | apply Z.div_lt_upper_bound; lia]. }
  pose proof (Z.mod_pos_bound (b / 60) 60 ltac:(lia)).
  pose proof (Z.mod_pos_bound b 60 ltac:(lia)).
  now rewrite !pad2_two_digits by lia.
Qed.

Lemma secToStr_two_digits_witness :
  secToStr (VNum 3725)
  = Ok (String (digit_char (3725 / 3600 / 10))
               (str1 (digit_char (3725 / 3600 mod 10)))
        ++ ":"
        ++ String (digit_char (3725 / 60 mod 60 / 10))
                  (str1 (digit_char (3725 / 60 mod 60 mod 10)))
        ++ ":"
        ++ String (digit_char (3725 mod 60 / 10))
                  (str1 (digit_char (3725 mod 60 mod 10)))).
Proof. apply (secToStr_two_digits 3725). lia. Defined.

(** X10: [msToStr] drops the milliseconds: for a count [ms] from [0] to
    [2^53], reading back what it writes gives the whole seconds of
    [ms]. *)
Theorem strToSec_msToStr (ms : Z) :
  0 <= ms <= 2 ^ 53 ->
  (hms <- msToStr (VNum ms) ;; strToSec hms) = Ok (ms / 1000).
Proof.
  rewrite <- two53_power. intros H.
  assert (H1000 : 1000 <= two53) by (now apply Z.leb_le).
  unfold msToStr. rewrite parseInt_number by exact H. cbn [bind].
  rewrite floor_div_safe by lia. cbn [bind].
  apply roundtrip_seconds.
  split; [apply Z.div_pos; lia|].
  apply Z.le_trans with ms; [|lia]. apply Z.div_le_upper_bound; lia.
Qed.

Lemma strToSec_msToStr_witness :
  (hms <- msToStr (VNum 3661999) ;; strToSec hms) = Ok (3661999 / 1000).
Proof.
  apply (strToSec_msToStr 3661999). split; [lia | now apply Z.leb_le].
Defined.

(** ** Byte counts *)

(** The notation of a number begins with a digit. *)
Lemma decimal_digit_head (n : Z) :
  exists c r, decimal n = String c r /\ is_digit c = true.
Proof.
  destruct (Z_lt_le_dec n 0) as [Hneg|Hpos]; [|now apply decimal_head].
  unfold decimal. cbn [decimal_digits].
  destruct (n <? 10) eqn:E; [|lia].
  eexists _, _. split; [reflexivity|].
  apply is_digit_digit_char. apply Z.mod_pos_bound. lia.
Qed.

Lemma magnitude_head (a : Z) :
  exists c r, magnitude a = String c r /\ is_digit c = true.
Proof.
  unfold magnitude. destruct (a <=? two53); [apply decimal_digit_head|].
  destruct (shortest _ _ _) as [s e].
  destruct (decimal_digit_head s) as (c & r & -> & Hc).
  destruct (_ <=? 21).
  - exists c, (r ++ zeros (Z.to_nat e)). now split.
  - destruct r; eexists _, _; (split; [reflexivity | exact Hc]).
Qed.

(** [parseInt] of a number reads the digits that begin its notation; the
    sign goes to the result. *)
Lemma parseInt_magnitude (a : Z) :
  0 < a ->
  parseInt (VNum a)
  = match parse_digits (magnitude a) None with
    | Some n => (d <- numeral n ;; Ok (Some (1 * d)))
    | None => Ok None
    end
  /\ parseInt (VNum (- a))
     = match parse_digits (magnitude a) None with
       | Some n => (d <- numeral n ;; Ok (Some (-1 * d)))
       | None => Ok None
       end.
Proof.
  intros H. unfold parseInt. cbn [to_string bind]. unfold number_to_string.
  destruct (a <? 0) eqn:E1; [lia|]. destruct (- a <? 0) eqn:E2; [|lia].
  rewrite Z.opp_involutive.
  destruct (magnitude_head a) as (c & r & -> & Hc). split.
  - now apply parseInt_string_digits.
  - reflexivity.
Qed.

(** X11: [toByteUnits] ignores the sign of the count. *)
Theorem toByteUnits_sign (b : Z) : toByteUnits (VNum (- b)) = toByteUnits (VNum b).
Proof.
  assert (H : forall a, 0 < a ->
                toByteUnits (VNum (- a)) = toByteUnits (VNum a)).
  { intros a Ha. unfold toByteUnits.
    destruct (parseInt_magnitude a Ha) as [-> ->].
    destruct (parse_digits (magnitude a) None) as [n|]; [|reflexivity].
    destruct (numeral n) as [d| | |]; try reflexivity. cbn [bind].
    now replace (Z.abs (-1 * d)) with (Z.abs (1 * d)) by lia. }
  destruct (Z.lt_trichotomy b 0) as [Hb|[->|Hb]].
  - rewrite <- (Z.opp_involutive b) at 2. symmetry. apply H. lia.
  - reflexivity.
  - now apply H.
Qed.

(** X12: from [1024^4] bytes upwards (and up to [2^53]) no unit is left
    in the table: [toByteUnits] writes the plain count followed by
    [bytes], and the label [TB] is never used. *)
Theorem toByteUnits_from_terabyte (b : Z) :
  1024 * 1024 * 1024 * 1024 <= b <= 2 ^ 53 ->
  toByteUnits (VNum b) = Ok (decimal b ++ " bytes").
Proof.
  rewrite <- two53_power. intros H. unfold toByteUnits.
  rewrite parseInt_number by lia. cbn [bind]. f_equal.
  rewrite Z.abs_eq by lia. unfold def. cbn [units_loop].
  destruct (b <? 1024) eqn:E1; [lia|].
  destruct (b <? 1024 * 1024) eqn:E2; [lia|].
  destruct (b <? 1024 * 1024 * 1024) eqn:E3; [lia|].
  destruct (b <? 1024 * 1024 * 1024 * 1024) eqn:E4; [lia|].
  rewrite number_to_string_safe by lia.
  destruct (1 <? b) eqn:E5; [reflexivity | lia].
Qed.

Lemma toByteUnits_from_terabyte_witness :
  toByteUnits (VNum 5000000000000) = Ok (decimal 5000000000000 ++ " bytes").
Proof.
  apply (toByteUnits_from_terabyte 5000000000000).
  split; [lia | now apply Z.leb_le].
Defined.

(** Above [2^53] the count is printed with the shortest digits that read
    back as the number, and from [10^21] [parseInt] reads the exponent
    notation of its argument. *)
Example toByteUnits_large :
  toByteUnits (VNum (2 ^ 69)) = Ok "590295810358705700000 bytes"
  /\ toByteUnits (VNum (10 ^ 21)) = Ok "1.00 byte".
Proof. split; vm_compute; reflexivity. Qed.

(** ** [toType], [toId], [toData] *)

(** X13: [toType] agrees with [typeof] except on [null] and on arrays,
    which it names ["null"] and ["array"] where [typeof] says ["object"]. *)
Theorem toType_typeof (v : value) :
  toType v = Ok (match v with
                 | VNull => "null"
                 | VArray _ _ => "array"
                 | _ => typeof v
                 end).
Proof. destruct v; reflexivity. Qed.

Lemma set_is_container (obj obj' : value) (k : string) (v : value) :
  set obj k v = Ok obj' -> is_container obj' = true.
Proof.
  destruct obj as [| |b|n|s|ps|n ps]; try discriminate; simpl;
    try (destruct (k =? "__proto__")%string; discriminate).
  - intros H. no_setter H. now injection H as <-.
  - destruct (k =? "length")%string.
    + unfold set_length.
      assert (Hr : forall m,
                 (if (0 <=? m) && (m <? 4294967296)
                  then Ok (VArray m (if m <? n then filter (below m) ps else ps))
                  else Throw RangeError None) = Ok obj' ->
                 is_container obj' = true).
      { intros m. destruct ((0 <=? m) && (m <? 4294967296)); [|discriminate].
        intros H. now injection H as <-. }
      destruct v; try discriminate; apply Hr.
    + intros H. no_setter H. now injection H as <-.
Qed.

Lemma container_is_object_type (v : value) :
  is_container v = true -> is_object_type v = true.
Proof. unfold is_container. now rewrite andb_true_iff. Qed.

(** X14: a truthy identifier stored under [id] of an object is what
    [toId] returns, whatever the object held; and when the [id] of the
    object is falsy or absent, [toId] returns a truthy identifier stored
    under [_id]. *)
Theorem toId_stored (obj v : value) :
  truthy v = true ->
  (forall with_id, set obj "id" v = Ok with_id -> toId with_id = Ok v)
  /\ (forall i with_other,
        get obj "id" = Ok i -> truthy i = false ->
        set obj "_id" v = Ok with_other ->
        toId with_other = Ok v).
Proof.
  intros Hv. split.
  - intros with_id H1. unfold toId.
    rewrite (container_is_object_type _ (set_is_container _ _ _ _ H1)).
    rewrite (get_set_same _ _ _ _ H1) by discriminate. cbn [bind]. now rewrite Hv.
  - intros i with_other Hi Hfalsy H2. unfold toId.
    rewrite (container_is_object_type _ (set_is_container _ _ _ _ H2)).
    assert (Hg : get with_other "id" = get obj "id").
    { apply (get_set_other _ _ _ _ _ H2); [discriminate|].
      intros _. split; discriminate. }
    rewrite Hg, Hi. cbn [bind]. rewrite Hfalsy.
    apply (get_set_same _ _ _ _ H2). discriminate.
Qed.

Lemma toId_stored_witness :
  toId (VObject [("id", VNum 7); ("name", VStr "a")]) = Ok (VNum 7)
  /\ toId (VObject [("id", VNum 0); ("name", VStr "a"); ("_id", VNum 7)])
     = Ok (VNum 7).
Proof.
  destruct (toId_stored (VObject [("id", VNum 0); ("name", VStr "a")]) (VNum 7)
              eq_refl) as [H1 H2].
  split; [apply H1 | apply (H2 (VNum 0))]; reflexivity.
Defined.

(** X15: [toData] returns truthy form data stored under [_formData], and
    the resource itself when its [_formData] is absent or falsy. *)
Theorem toData_stored (obj fd v with_data : value) :
  truthy v = true ->
  get obj "_formData" = Ok fd -> truthy fd = false ->
  set obj "_formData" v = Ok with_data ->
  toData obj = Ok obj /\ toData with_data = Ok v.
Proof.
  intros Hv Hfd Hfalsy H. unfold toData. split.
  - rewrite Hfd. cbn [bind]. now rewrite Hfalsy.
  - rewrite (get_set_same _ _ _ _ H) by discriminate. cbn [bind]. now rewrite Hv.
Qed.

Lemma toData_stored_witness :
  toData (VObject [("name", VStr "a")]) = Ok (VObject [("name", VStr "a")])
  /\ toData (VObject [("name", VStr "a"); ("_formData", VStr "raw")])
     = Ok (VStr "raw").
Proof.
  apply (toData_stored (VObject [("name", VStr "a")]) VUndefined (VStr "raw"));
    reflexivity.
Defined.

(** ** [compareWithOperator] *)

(** X16: any operator outside the eight of the [switch], and any operator
    that is not a string, takes the [default] branch: the operator is
    converted to a string, and a [RangeError] whose message quotes that
    string is raised; an operator that does not convert throws the
    [TypeError] of the conversion instead. *)
Theorem compareWithOperator_unsupported (v1 operator v2 : value) :
  (forall op, operator = VStr op -> ~ In op operators) ->
  compareWithOperator v1 operator v2
  = (s <- to_string operator ;;
     Throw RangeError (Some (unsupported_operator s))).
Proof.
  intros H. unfold compareWithOperator.
  destruct operator as [| |b|n|op|ps|n ps]; try reflexivity.
  specialize (H op eq_refl). unfold operators in H. simpl in H.
  repeat match goal with
         | |- context [(op =? ?s)%string] =>
             destruct (String.eqb_spec op s) as [->|?]; [exfalso; tauto|]
         end.
  reflexivity.
Qed.

Lemma compareWithOperator_unsupported_witness :
  compareWithOperator (VNum 1) (VStr "~=") (VNum 1)
  = Throw RangeError (Some (unsupported_operator "~=")).
Proof.
  apply (compareWithOperator_unsupported (VNum 1) (VStr "~=") (VNum 1)).
  intros op H. injection H as <-. unfold operators. simpl.
  intros [H|[H|[H|[H|[H|[H|[H|[H|[]]]]]]]]]; discriminate.
Defined.

(** Operators that are no strings: a number prints as [ToString] prints
    it, and an object whose [toString] is no function does not convert. *)
Example compareWithOperator_not_a_string :
  compareWithOperator VNull (VNum (10 ^ 21)) VNull
  = Throw RangeError (Some (unsupported_operator "1e+21"))
  /\ compareWithOperator VNull (VObject [("toString", VNum 0)]) VNull
     = Throw TypeError None.
Proof. split; vm_compute; reflexivity. Qed.

Lemma strict_equal_same_type (x y : value) :
  strict_equal x y = Ok true -> same_type x y = true.
Proof. destruct x, y; simpl; try discriminate; reflexivity. Qed.

(** X17: operands that are [===] are also [==]. *)
Theorem strict_implies_loose (v1 v2 : value) :
  compareWithOperator v1 (VStr "===") v2 = Ok true ->
  compareWithOperator v1 (VStr "==") v2 = Ok true.
Proof.
  cbn [compareWithOperator String.eqb Ascii.eqb Bool.eqb]. cbv iota.
  intros H. unfold loose_equal. now rewrite (strict_equal_same_type _ _ H).
Qed.

Lemma strict_implies_loose_witness :
  compareWithOperator (VStr "a") (VStr "==") (VStr "a") = Ok true.
Proof. apply (strict_implies_loose (VStr "a") (VStr "a")). reflexivity. Defined.

Lemma strict_equal_sym (x y : value) : strict_equal x y = strict_equal y x.
Proof.
  destruct x as [| |b|n|s|ps|n ps], y as [| |b'|n'|s'|ps'|n' ps'];
    simpl; try reflexivity; f_equal.
  - now destruct b, b'.
  - apply Z.eqb_sym.
  - apply String.eqb_sym.
Qed.

Lemma loose_equal_sym (x y : value) : loose_equal x y = loose_equal y x.
Proof.
  unfold loose_equal.
  assert (Hs : same_type x y = same_type y x) by (destruct x, y; reflexivity).
  rewrite Hs, (strict_equal_sym x y), (andb_comm (is_nullish x)),
    (orb_comm (is_nullish x)).
  destruct (same_type y x); [reflexivity|].
  destruct (is_nullish y && is_nullish x); [reflexivity|].
  destruct (is_nullish y || is_nullish x); [reflexivity|].
  assert (Hx : loose_operand x = Throw TypeError None
               \/ exists ox, loose_operand x = Ok ox).
  { destruct x; try (right; eexists; reflexivity);
      unfold loose_operand, to_primitive;
      match goal with |- context [to_string ?v] =>
        destruct (to_string_converts v) as [[s ->]| ->] end;
      [right; now eexists | now left | right; now eexists | now left]. }
  assert (Hy : loose_operand y = Throw TypeError None
               \/ exists oy, loose_operand y = Ok oy).
  { destruct y; try (right; eexists; reflexivity);
      unfold loose_operand, to_primitive;
      match goal with |- context [to_string ?v] =>
        destruct (to_string_converts v) as [[s ->]| ->] end;
      [right; now eexists | now left | right; now eexists | now left]. }
  destruct Hx as [->|[ox ->]], Hy as [->|[oy ->]]; try reflexivity.
  cbn [bind].
  destruct ox as [| |b|n|s|ps|n ps], oy as [| |b'|n'|s'|ps'|n' ps'];
    try reflexivity;
    rewrite ?(Z.eqb_sym n n'), ?(String.eqb_sym s s'); try reflexivity.
  - destruct (string_to_number s'); simpl; try reflexivity.
    now rewrite Z.eqb_sym.
  - destruct (string_to_number s); simpl; try reflexivity.
    now rewrite Z.eqb_sym.
Qed.

(** X18: the four equality operators do not depend on the order of the
    operands. *)
Theorem equality_operators_symmetric (v1 v2 : value) (op : string) :
  In op ["==="; "!=="; "=="; "!="] ->
  compareWithOperator v1 (VStr op) v2 = compareWithOperator v2 (VStr op) v1.
Proof.
  intros [<-|[<-|[<-|[<-|[]]]]];
    cbn [compareWithOperator String.eqb Ascii.eqb Bool.eqb]; cbv iota;
    now rewrite ?(strict_equal_sym v1 v2), ?(loose_equal_sym v1 v2).
Qed.

Lemma equality_operators_symmetric_witness :
  compareWithOperator (VNum 1) (VStr "==") (VStr "1")
  = compareWithOperator (VStr "1") (VStr "==") (VNum 1).
Proof.
  apply (equality_operators_symmetric (VNum 1) (VStr "1") "==").
  simpl. tauto.
Defined.

(** X19: on integers, [>=] is the negation of [<] and [<=] the negation of
    [>], and exactly one of [<], [===] and [>] holds. *)
Theorem compare_integers (a b : Z) :
  compareWithOperator (VNum a) (VStr ">=") (VNum b)
  = result_map negb (compareWithOperator (VNum a) (VStr "<") (VNum b))
  /\ compareWithOperator (VNum a) (VStr "<=") (VNum b)
     = result_map negb (compareWithOperator (VNum a) (VStr ">") (VNum b))
  /\ exists lt eq gt,
       compareWithOperator (VNum a) (VStr "<") (VNum b) = Ok lt
       /\ compareWithOperator (VNum a) (VStr "===") (VNum b) = Ok eq
       /\ compareWithOperator (VNum a) (VStr ">") (VNum b) = Ok gt
       /\ (lt = true /\ eq = false /\ gt = false
           \/ lt = false /\ eq = true /\ gt = false
           \/ lt = false /\ eq = false /\ gt = true).
Proof.
  split; [reflexivity | split; [reflexivity|]].
  exists (a <? b), (a =? b), (b <? a). repeat split; try reflexivity.
  destruct (Z.ltb_spec a b), (Z.eqb_spec a b), (Z.ltb_spec b a); try lia; tauto.
Qed.

(** X20: against [undefined] every ordering operator is false, in both
    positions: there [>=] is not the negation of [<]. *)
Theorem compare_undefined (n : Z) (op : string) :
  In op [">"; "<"; ">="; "<="] ->
  compareWithOperator VUndefined (VStr op) (VNum n) = Ok false
  /\ compareWithOperator (VNum n) (VStr op) VUndefined = Ok false.
Proof. intros [<-|[<-|[<-|[<-|[]]]]]; split; reflexivity. Qed.

Lemma compare_undefined_witness :
  compareWithOperator VUndefined (VStr ">=") (VNum 3) = Ok false
  /\ compareWithOperator (VNum 3) (VStr ">=") VUndefined = Ok false.
Proof. apply (compare_undefined 3 ">="). simpl. tauto. Defined.

(** ** [ucFirst], [lcFirst], [dotCase] *)

Lemma substr_from_1 (c : ascii) (r : string) : substr_from (String c r) 1 = r.
Proof.
  unfold substr_from. pose proof (len_nonneg r).
  assert (E : len (String c r) = 1 + len r)
    by (unfold len; cbn [String.length]; lia).
  rewrite E. cbn [Z.ltb Z.compare].
  replace (Z.min 1 (1 + len r)) with 1 by lia. reflexivity.
Qed.

Lemma lcFirst_cons (c : ascii) (r : string) :
  lcFirst (String c r) = String (lower_char c) r.
Proof. unfold lcFirst. now rewrite substr_from_1. Qed.

Lemma ucFirst_cons (c : ascii) (r : string) :
  ucFirst (String c r) = (u <- upper_char c ;; Ok (u ++ r)).
Proof.
  unfold ucFirst. rewrite substr_from_1. cbn [charAt0 str1 toUpperCase].
  destruct (upper_char c); try reflexivity. cbn [bind]. now rewrite append_nil_r.
Qed.

Lemma lower_char_idempotent (c : ascii) : lower_char (lower_char c) = lower_char c.
Proof. each_char c; reflexivity. Qed.

Lemma upper_lower_char (c : ascii) : upper_char (lower_char c) = upper_char c.
Proof. each_char c; reflexivity. Qed.

(** X21: on a string of code units below 256, [lcFirst] keeps the length
    of the string and everything after its first character, and applying
    it twice is applying it once. *)
Theorem lcFirst_idempotent (s : string) :
  lcFirst (lcFirst s) = lcFirst s
  /\ String.length (lcFirst s) = String.length s
  /\ drop 1 (lcFirst s) = drop 1 s.
Proof.
  destruct s as [|c r]; [repeat split|].
  rewrite !lcFirst_cons, lower_char_idempotent. repeat split.
Qed.

(** X22: on a string of code units below 256, capitalizing after
    lowering the first letter is the same as capitalizing:
    [ucFirst(lcFirst(s)) = ucFirst(s)]. *)
Theorem ucFirst_lcFirst (s : string) : ucFirst (lcFirst s) = ucFirst s.
Proof.
  destruct s as [|c r]; [reflexivity|].
  now rewrite lcFirst_cons, !ucFirst_cons, upper_lower_char.
Qed.

(** The capital of a character starts with a character that is its own
    capital. *)
Lemma upper_char_fixed (c : ascii) :
  match upper_char c with
  | Ok (String c' _) => upper_char c' = Ok (str1 c')
  | Ok EmptyString => False
  | _ => True
  end.
Proof. each_char c; vm_compute; first [reflexivity | exact I]. Qed.

(** X23: a string of code units below 256 returned by [ucFirst] is
    returned unchanged by a second call. *)
Theorem ucFirst_idempotent (s r : string) : ucFirst s = Ok r -> ucFirst r = Ok r.
Proof.
  destruct s as [|c t].
  - intros H. now injection H as <-.
  - rewrite ucFirst_cons. pose proof (upper_char_fixed c) as Hu.
    destruct (upper_char c) as [[|c' rest]| | |]; try discriminate; [contradiction|].
    cbn [bind]. intros H. injection H as <-.
    cbn [append]. now rewrite ucFirst_cons, Hu.
Qed.

Lemma ucFirst_idempotent_witness : ucFirst "Hello" = Ok "Hello".
Proof. apply (ucFirst_idempotent "hello" "Hello"). reflexivity. Defined.

Lemma lower_upper_char (c : ascii) :
  code c <> 223 -> code c <> 181 -> code c <> 255 ->
  exists c', upper_char c = Ok (str1 c') /\ lower_char c' = lower_char c.
Proof.
  each_char c; intros H1 H2 H3;
    try (exfalso;
         first [apply H1; reflexivity | apply H2; reflexivity
               | apply H3; reflexivity]);
    eexists; split; reflexivity.
Qed.

(** X24: for a string of code units below 256, lowering the first letter
    of what [ucFirst] returns gives [lcFirst] of the string, unless the
    string starts with the sharp s (223), which [ucFirst] turns into two
    letters, with the micro sign (181), whose capital is the Greek
    capital mu, or with the y with diaeresis (255), whose capital has no
    code unit below 256. *)
Theorem lcFirst_ucFirst (c : ascii) (t : string) :
  code c <> 223 -> code c <> 181 -> code c <> 255 ->
  exists r, ucFirst (String c t) = Ok r /\ lcFirst r = lcFirst (String c t).
Proof.
  intros H1 H2 H3. destruct (lower_upper_char c H1 H2 H3) as (c' & Hu & Hl).
  exists (String c' t). rewrite ucFirst_cons, Hu, !lcFirst_cons, Hl.
  split; reflexivity.
Qed.

Lemma lcFirst_ucFirst_witness :
  exists r, ucFirst (String "h" "ello") = Ok r
            /\ lcFirst r = lcFirst (String "h" "ello").
Proof. apply (lcFirst_ucFirst "h" "ello"); discriminate. Defined.

Lemma replace_first_char (c : ascii) (r a b : string) :
  free_of c a = true ->
  replace_first (str1 c) r (a ++ String c b) = a ++ r ++ b.
Proof.
  induction a as [|d a IH]; intros H.
  - cbn. now rewrite Ascii.eqb_refl.
  - cbn [free_of all_chars] in H. apply andb_true_iff in H as [Hd Ha].
    apply negb_true_iff in Hd. cbn [append replace_first str1 starts].
    rewrite Ascii.eqb_sym, Hd. cbn [andb]. f_equal. now apply IH.
Qed.

Lemma replace_first_absent (c : ascii) (r a : string) :
  free_of c a = true -> replace_first (str1 c) r a = a.
Proof.
  induction a as [|d a IH]; intros H; [reflexivity|].
  cbn [free_of all_chars] in H. apply andb_true_iff in H as [Hd Ha].
  apply negb_true_iff in Hd. cbn [replace_first str1 starts].
  rewrite Ascii.eqb_sym, Hd. cbn [andb]. f_equal. now apply IH.
Qed.

(** X25: [dotCase] turns only the first underscore of the snake-cased
    string into a dot; later underscores stay, and a string without
    underscore is returned as [snakeCase] gives it. *)
Theorem dotCase_first_underscore (snakeCase : string -> string) (str : string) :
  (free_of "_" (snakeCase str) = true -> dotCase snakeCase str = snakeCase str)
  /\ (forall a b,
        free_of "_" a = true -> snakeCase str = a ++ "_" ++ b ->
        dotCase snakeCase str = a ++ "." ++ b).
Proof.
  unfold dotCase. split.
  - apply (replace_first_absent "_" ".").
  - intros a b Ha ->. apply (replace_first_char "_" "." a b Ha).
Qed.

(** ** More on [mergeRecursive] *)

(** X26: when the call returns within the model, a key that the source
    does not have reads the same in the result as in the target.  (For an
    array target the source must not carry a [length] key; a source key
    [__proto__] that the target does not own, which changes what every
    object inherits, leaves the model.) *)
Theorem mergeRecursive_other_keys (target source result : value) (k : string) :
  ~ In k (own_keys source) ->
  (is_array target = true -> ~ In "length" (own_keys source) /\ k <> "length") ->
  mergeRecursive target [source] = Ok result ->
  get result k = get target k.
Proof.
  intros Hk Harr. rewrite mergeRecursive_one. cbn [merge_source]. intros H.
  now apply merge_keys_other with (k := k) in H as [H _].
Qed.

Lemma mergeRecursive_other_keys_witness :
  get (VObject [("a", VNum 1); ("b", VObject [("x", VNum 5)])]) "a"
  = get (VObject [("a", VNum 1); ("b", VObject [])]) "a".
Proof.
  apply (mergeRecursive_other_keys
           (VObject [("a", VNum 1); ("b", VObject [])])
           (VObject [("b", VObject [("x", VNum 5)])])).
  - simpl. intros [H|[]]. discriminate.
  - discriminate.
  - reflexivity.
Defined.

Lemma not_inherited_no_setter (k : string) (ps : props) :
  inherited k = false -> calls_setter k ps = false.
Proof.
  intros H. unfold calls_setter.
  destruct (k =? "__proto__")%string eqn:E; [|reflexivity].
  apply String.eqb_eq in E. subst k. discriminate.
Qed.

(** Keys that the target neither has nor inherits are added with the
    values of the source. *)
Lemma merge_keys_fresh (recur : value -> value -> result value)
  (source : value) (keys : list string) :
  NoDup keys ->
  (forall k, In k keys -> exists v, get source k = Ok v) ->
  (forall k, In k keys -> inherited k = false) ->
  forall t, (forall k, In k keys -> lookup k t = None) ->
  exists r,
    merge_keys recur source keys (VObject t) = Ok (VObject r)
    /\ forall k, lookup k r
                 = if in_dec string_dec k keys
                   then match get source k with Ok v => Some v | _ => None end
                   else lookup k t.
Proof.
  intros Hnd. induction Hnd as [|p keys Hp Hnd IH]; intros Hsrc Hinh t Ht.
  - exists t. split; [reflexivity|]. intros k. now destruct (in_dec _ k []).
  - destruct (Hsrc p (or_introl eq_refl)) as [v Hv].
    destruct (IH (fun k Hk => Hsrc k (or_intror Hk))
                 (fun k Hk => Hinh k (or_intror Hk)) (put p v t))
      as (r & Hr & Hget).
    { intros k Hk. rewrite lookup_put_other; [apply Ht; now right|].
      intros ->. contradiction. }
    exists r. split.
    + cbn [merge_keys get]. rewrite (Ht p (or_introl eq_refl)).
      rewrite absent_returns by (apply Hinh; now left). cbn [bind].
      cbn [truthy andb]. rewrite Hv. cbn [bind set].
      rewrite not_inherited_no_setter by (apply Hinh; now left). exact Hr.
    + intros k. rewrite Hget.
      destruct (in_dec string_dec k keys) as [Hin|Hnin];
        destruct (in_dec string_dec k (p :: keys)) as [Hin'|Hnin'];
        try reflexivity.
      * exfalso. apply Hnin'. now right.
      * destruct Hin' as [<-|Hin']; [|contradiction].
        now rewrite lookup_put_same, Hv.
      * rewrite lookup_put_other; [reflexivity|].
        intros ->. apply Hnin'. now left.
Qed.

(** X27: merging an object into an object that has none of its keys, no
    key being a name that the prototypes define, returns an object with
    the keys of both, each with the value it had. *)
Theorem mergeRecursive_disjoint (a b : props) :
  NoDup (map fst b) ->
  (forall k, In k (map fst b) -> lookup k a = None /\ inherited k = false) ->
  exists r,
    mergeRecursive (VObject a) [VObject b] = Ok (VObject r)
    /\ forall k, lookup k r
                 = match lookup k b with
                   | Some v => Some v
                   | None => lookup k a
                   end.
Proof.
  intros Hnd Hdis. rewrite mergeRecursive_one. cbn [merge_source own_keys].
  destruct (merge_keys_fresh
              (merge_source (Nat.max (depth (VObject b)) (depth (VObject a))))
              (VObject b) (map fst b) Hnd) with (t := a) as (r & Hr & Hget).
  - intros k Hk. destruct (lookup_in_keys k b Hk) as [v Hv].
    exists v. cbn [get]. now rewrite Hv.
  - intros k Hk. now apply Hdis.
  - intros k Hk. now apply Hdis.
  - exists r. split; [exact Hr|]. intros k. rewrite Hget. cbn [get].
    destruct (in_dec string_dec k (map fst b)) as [Hin|Hnin].
    + destruct (lookup_in_keys k b Hin) as [v ->]. reflexivity.
    + now rewrite (lookup_not_in_keys k b Hnin).
Qed.

Lemma mergeRecursive_disjoint_witness :
  exists r,
    mergeRecursive (VObject [("a", VNum 1)]) [VObject [("b", arr [VNum 2])]]
    = Ok (VObject r)
    /\ forall k, lookup k r
                 = match lookup k [("b", arr [VNum 2])] with
                   | Some v => Some v
                   | None => lookup k [("a", VNum 1)]
                   end.
Proof.
  apply (mergeRecursive_disjoint [("a", VNum 1)] [("b", arr [VNum 2])]).
  - repeat constructor. intros [].
  - simpl. intros k [<-|[]]. split; reflexivity.
Defined.

(** The fuel [mergeRecursive] gives itself can be replaced by any larger
    one. *)
Lemma merge_source_fuel (fuel : nat) (t s : value) :
  (Nat.max (depth s) (depth t) < fuel)%nat ->
  merge_source fuel t s = merge_source (S (Nat.max (depth s) (depth t))) t s.
Proof.
  intros H. set (n := Nat.max (depth s) (depth t)) in *.
  pose proof (merge_source_within (S n) n t s
                ltac:(unfold n; lia) ltac:(unfold n; lia) ltac:(lia)) as Hw.
  apply merge_source_enough with (fuel := S n); [lia | reflexivity|].
  intros E. now rewrite E in Hw.
Qed.

(** X28: a call with two sources is the call with the first source
    followed by the call with the second one on its result. *)
Theorem mergeRecursive_two_sources (target s1 s2 : value) :
  mergeRecursive target [s1; s2]
  = (r <- mergeRecursive target [s1] ;; mergeRecursive r [s2]).
Proof.
  rewrite mergeRecursive_one. unfold mergeRecursive at 1.
  cbn [map fold_right merge_sources].
  set (fuel := S (Nat.max (depth s1) (Nat.max (depth s2) (depth target)))).
  rewrite (merge_source_fuel fuel target s1) by (unfold fuel; lia).
  pose proof (merge_source_within (S (Nat.max (depth s1) (depth target)))
                (Nat.max (depth s1) (depth target)) target s1
                ltac:(lia) ltac:(lia) ltac:(lia)) as Hw.
  destruct (merge_source (S (Nat.max (depth s1) (depth target))) target s1)
    as [r| | |]; try reflexivity.
  cbn [bind]. cbn [within] in Hw.
  rewrite (merge_source_fuel fuel r s2) by (unfold fuel; lia).
  rewrite mergeRecursive_one. apply bind_ret.
Qed.

(** ** Slugs *)

Lemma take_run (k : nat) (s : string) :
  (k <= run_length s)%nat -> all_chars is_slug_char (take k s) = true.
Proof.
  revert s; induction k as [|k IH]; intros s H; [now rewrite take_0|].
  destruct s as [|c s]; [reflexivity|]. simpl in *.
  destruct (is_slug_char c); [|lia]. apply IH. lia.
Qed.

Lemma exec_here_runs (lo : Z) (hi : option Z) (s : string) (k : nat) :
  exec_here (Runs lo hi) s = Some k -> (k <= run_length s)%nat.
Proof.
  cbn [exec_here]. destruct (lo <=? _); [|discriminate].
  intros H. injection H as <-. destruct hi; lia.
Qed.

Lemma match_all_runs (fuel : nat) (lo : Z) (hi : option Z) (s : string) :
  Forall (fun w => all_chars is_slug_char w = true)
         (match_all fuel (Runs lo hi) s).
Proof.
  revert s; induction fuel as [|fuel IH]; intros s; [constructor|].
  cbn [match_all].
  assert (Hstep : Forall (fun w => all_chars is_slug_char w = true)
                    match s with
                    | "" => []
                    | String _ s' => match_all fuel (Runs lo hi) s'
                    end).
  { destruct s; [constructor | apply IH]. }
  destruct (exec_here (Runs lo hi) s) as [[|k]|] eqn:E; [| |exact Hstep].
  - constructor; [reflexivity | exact Hstep].
  - constructor; [|apply IH]. apply take_run. now apply exec_here_runs in E.
Qed.

Lemma join_slug (ws : list string) :
  Forall (fun w => all_chars is_slug_char w = true) ws ->
  all_chars is_slug_or_hyphen (join "-" ws) = true.
Proof.
  assert (Hw : forall w, all_chars is_slug_char w = true ->
                         all_chars is_slug_or_hyphen w = true).
  { intros w. apply all_chars_impl. intros c Hc. unfold is_slug_or_hyphen.
    now rewrite Hc. }
  induction 1 as [|w ws H Hws IH]; [reflexivity|].
  destruct ws as [|w2 ws]; [now apply Hw|].
  change (join "-" (w :: w2 :: ws)) with (w ++ "-" ++ join "-" (w2 :: ws)).
  rewrite !all_chars_append, (Hw w H), IH. reflexivity.
Qed.

(** X29: without [min] and [max], [slugify] returns a slug made of
    lowercase letters, digits and hyphens only. *)
Theorem slugify_alphabet (str : string) (min max : value) :
  truthy min = false -> truthy max = false ->
  exists slug,
    slugify str min max = Ok slug /\ all_chars is_slug_or_hyphen slug = true.
Proof.
  intros Hmin Hmax. unfold slugify. rewrite Hmin, Hmax. cbn [negb andb bind].
  destruct (truthy (VStr str)); eexists; (split; [reflexivity|]);
    [|reflexivity].
  apply join_slug, match_all_runs.
Qed.

Lemma slugify_alphabet_witness :
  exists slug,
    slugify "Hello, World!" VUndefined VUndefined = Ok slug
    /\ all_chars is_slug_or_hyphen slug = true.
Proof. apply (slugify_alphabet "Hello, World!" VUndefined VUndefined); reflexivity. Defined.

Lemma run_length_word (w rest : string) :
  all_chars is_slug_char w = true ->
  match rest with "" => true | String c _ => negb (is_slug_char c) end = true ->
  run_length (w ++ rest) = String.length w.
Proof.
  intros Hw Hrest. induction w as [|c w IH]; simpl in *.
  - destruct rest as [|d rest]; [reflexivity|]. cbn [run_length].
    now destruct (is_slug_char d).
  - apply andb_true_iff in Hw as [Hc Hw]. rewrite Hc. now rewrite IH.
Qed.

Lemma match_all_empty (fuel : nat) : match_all fuel rxSlugWords "" = [].
Proof. now destruct fuel. Qed.

(** A word followed by the end or by a character outside [[a-z0-9]] is
    the first match. *)
Lemma match_all_word (fuel : nat) (w rest : string) :
  is_slug_word w ->
  match rest with "" => true | String c _ => negb (is_slug_char c) end = true ->
  match_all (S fuel) rxSlugWords (w ++ rest) = w :: match_all fuel rxSlugWords rest.
Proof.
  intros [Hne Hw] Hrest. cbn [match_all rxSlugWords exec_here].
  rewrite (run_length_word w rest Hw Hrest).
  destruct w as [|c w]; [contradiction|]. cbn [String.length].
  destruct (1 <=? Z.of_nat (S (String.length w))) eqn:E;
    [|apply Z.leb_gt in E; lia].
  rewrite Nat2Z.id.
  change (S (String.length w)) with (String.length (String c w)).
  now rewrite take_append, drop_append.
Qed.

Lemma length_join_cons (w w2 : string) (ws : list string) :
  String.length (join "-" (w :: w2 :: ws))
  = (String.length w + S (String.length (join "-" (w2 :: ws))))%nat.
Proof.
  change (join "-" (w :: w2 :: ws)) with (w ++ String "-" (join "-" (w2 :: ws))).
  now rewrite length_append.
Qed.

(** The words of a slug are the words it was joined from. *)
Lemma match_all_join (ws : list string) :
  Forall is_slug_word ws ->
  forall fuel, (String.length (join "-" ws) < fuel)%nat ->
    match_all fuel rxSlugWords (join "-" ws) = ws.
Proof.
  induction 1 as [|w ws Hw Hws IH]; intros fuel Hf.
  - apply match_all_empty.
  - destruct fuel as [|fuel]; [lia|].
    destruct ws as [|w2 ws].
    + cbn [join]. rewrite <- (append_nil_r w) at 1.
      rewrite match_all_word by (exact Hw || reflexivity).
      now rewrite match_all_empty.
    + rewrite length_join_cons in Hf.
      change (join "-" (w :: w2 :: ws)) with (w ++ String "-" (join "-" (w2 :: ws))).
      rewrite match_all_word by (exact Hw || reflexivity).
      assert (Hl : (1 <= String.length w)%nat).
      { destruct Hw as [Hne _]. destruct w; [contradiction | simpl; lia]. }
      destruct fuel as [|fuel]; [lia|].
      cbn [match_all rxSlugWords exec_here run_length].
      change (is_slug_char "-") with false. cbv iota. cbn [Z.of_nat Z.leb Z.compare].
      f_equal. apply IH. lia.
Qed.

Lemma match_all_words (fuel : nat) (s : string) :
  Forall is_slug_word (match_all fuel rxSlugWords s).
Proof.
  revert s; induction fuel as [|fuel IH]; intros s; [constructor|].
  cbn [match_all].
  assert (Hstep : Forall is_slug_word
                    match s with
                    | "" => []
                    | String _ s' => match_all fuel rxSlugWords s'
                    end).
  { destruct s; [constructor | apply IH]. }
  destruct (exec_here rxSlugWords s) as [[|k]|] eqn:E; [| |exact Hstep].
  - exfalso. revert E. cbn [rxSlugWords exec_here].
    destruct (1 <=? Z.of_nat (run_length s)) eqn:E1; [|discriminate].
    intros H. injection H as H. lia.
  - constructor; [|apply IH]. split.
    + apply exec_here_runs in E. destruct s; [simpl in E; lia | discriminate].
    + apply take_run. now apply exec_here_runs in E.
Qed.

Lemma slug_char_fixed (c : ascii) :
  is_slug_or_hyphen c = true ->
  Lodash.deburr_char (lower_char c) = str1 c.
Proof. each_char c; try discriminate; reflexivity. Qed.

Lemma slug_fixed (s : string) :
  all_chars is_slug_or_hyphen s = true -> Lodash.deburr (toLowerCase s) = s.
Proof.
  induction s as [|c s IH]; [reflexivity|].
  cbn [all_chars toLowerCase Lodash.deburr]. rewrite andb_true_iff.
  intros [Hc Hs]. now rewrite (slug_char_fixed c Hc), IH.
Qed.

Lemma slug_words_are_words (ws : list string) :
  Forall is_slug_word ws -> Forall (fun w => all_chars is_slug_char w = true) ws.
Proof. apply Forall_impl. now intros w [_ H]. Qed.

(** X30: without [min] and [max], [slugify] returns a slug that is its
    own slug: [slugify(slugify(str)) = slugify(str)]. *)
Theorem slugify_idempotent (str : string) (min max : value) :
  truthy min = false -> truthy max = false ->
  exists slug,
    slugify str min max = Ok slug /\ slugify slug min max = Ok slug.
Proof.
  intros Hmin Hmax. unfold slugify. rewrite Hmin, Hmax. cbn [negb andb bind].
  destruct (truthy (VStr str)); eexists; (split; [reflexivity|]);
    [|reflexivity].
  set (ws := Lodash.words (Lodash.deburr (toLowerCase str)) rxSlugWords).
  assert (Hws : Forall is_slug_word ws) by apply match_all_words.
  destruct (truthy (VStr (join "-" ws))) eqn:E.
  - f_equal. unfold Lodash.words at 1.
    rewrite slug_fixed by (now apply join_slug, slug_words_are_words).
    f_equal. apply match_all_join; [exact Hws | lia].
  - cbn [truthy] in E. apply negb_false_iff, String.eqb_eq in E. now rewrite E.
Qed.

Lemma slugify_idempotent_witness :
  exists slug,
    slugify "Hello, World!" VUndefined VUndefined = Ok slug
    /\ slugify slug VUndefined VUndefined = Ok slug.
Proof. apply (slugify_idempotent "Hello, World!" VUndefined VUndefined); reflexivity. Defined.
